(** * netflix_eda: the cleaning pipeline of [netflix.py], embedded in Rocq

    The script is a straight-line pandas program.  The table is modelled
    as pandas has it: a schema of column dtypes plus a list of rows, each
    row a finite map from column name to cell.  Floating-point scores are
    idealised as exact rationals ([Q]); every comparison goes through the
    numeric order of [Q], never through syntactic equality of fractions.

    Library primitives ([describe], [cut], [str.split], [explode],
    [dropna]) are written out with the semantics of pandas/numpy that
    the script relies on: linear-interpolation percentiles, right-closed
    bins located by a left binary search, [include_lowest], missing
    values for scores outside every bin.  Rows are positional, so the
    index and [reset_index] do not appear; the order of the columns is
    not kept; the date parser is a parameter of the pipeline.  Printing
    and plotting are left out: they do not change the table. *)

From Stdlib Require Import QArith Qround Lqa.
From stdpp Require Import base gmap strings list fin_maps sorting.

(** ** Cells, dtypes, errors *)

Inductive cell :=
  | NaN
  | Num (q : Q)
  | Str (s : string)
  | Lst (l : list string).

Inductive dtype :=
  | Float64
  | Int64
  | Object
  | Category (categories : list string).

Inductive error :=
  | KeyError (key : string)
  | ValueError (msg : string)
  | TypeError (msg : string)
  | AttributeError (msg : string).

Inductive result (A : Type) :=
  | Ok (a : A)
  | Err (e : error).
Arguments Ok {A} a.
Arguments Err {A} e.

#[global] Instance result_ret : MRet result := λ A a, Ok a.
#[global] Instance result_bind : MBind result :=
  λ A B f m, match m with Ok a => f a | Err e => Err e end.

Definition isna (c : cell) : bool :=
  match c with NaN => true | _ => false end.

Definition is_numeric (d : dtype) : bool :=
  match d with Float64 | Int64 => true | _ => false end.

(** The number held by a cell of a numeric column. *)
Definition cell_num (c : cell) : option Q :=
  match c with Num q => Some q | _ => None end.

(** ** Series and data frames *)

Record Series := { dtype_of : dtype; values : list cell }.

Record DataFrame := {
  dtypes : gmap string dtype;
  rows : list (gmap string cell)
}.

(** [row[col]]; a well-formed table has every column in every row. *)
Definition at_col (col : string) (r : gmap string cell) : cell :=
  default NaN (r !! col).

(** [df[col]] *)
Definition getitem (df : DataFrame) (col : string) : result Series :=
  match dtypes df !! col with
  | Some d => Ok {| dtype_of := d; values := at_col col <$> rows df |}
  | None => Err (KeyError col)
  end.

(** [df[col] = s] *)
Definition setitem (df : DataFrame) (col : string) (s : Series) : result DataFrame :=
  if Nat.eqb (length (values s)) (length (rows df)) then
    Ok {| dtypes := <[col := dtype_of s]> (dtypes df);
          rows := zip_with (λ r v, <[col := v]> r) (rows df) (values s) |}
  else Err (ValueError "Length of values does not match length of index").

(** ** Order statistics on rationals *)

Definition Qltb (x y : Q) : bool := negb (Qle_bool y x).

Fixpoint insert_sorted (x : Q) (l : list Q) : list Q :=
  match l with
  | [] => [x]
  | y :: l' => if Qle_bool x y then x :: l else y :: insert_sorted x l'
  end.

(** Python's [sorted]: a stable ascending sort. *)
Definition sorted (l : list Q) : list Q := foldr insert_sorted [] l.

(** Distinct values in order of first appearance ([pandas.unique]). *)
Fixpoint unique (l : list Q) : list Q :=
  match l with
  | [] => []
  | x :: l' => x :: filter (λ y, Qeq_bool x y = false) (unique l')
  end.

(** Python's [set] of floats.  Its iteration order is unspecified; the
    script sorts it at once, so any enumeration of the distinct values
    will do. *)
Definition set_of (l : list Q) : list Q := unique l.

(** The non-missing numbers of a column ([dropna] inside the reductions). *)
Definition notna_values (xs : list cell) : list Q := omap cell_num xs.

Definition nanmin (xs : list Q) : cell :=
  match xs with
  | [] => NaN
  | x :: l => Num (foldl (λ m y, if Qle_bool m y then m else y) x l)
  end.

Definition nanmax (xs : list Q) : cell :=
  match xs with
  | [] => NaN
  | x :: l => Num (foldl (λ m y, if Qle_bool y m then m else y) x l)
  end.

(** numpy's percentile with linear interpolation: the virtual index
    [(n-1)*q] is split into its floor and its fractional part, and the
    two neighbouring order statistics are interpolated. *)
Definition quantile (xs : list Q) (q : Q) : cell :=
  match sorted xs with
  | [] => NaN
  | (x0 :: _) as s =>
      let n := length s in
      let pos := (inject_Z (Z.of_nat (n - 1)) * q)%Q in
      let lo := Z.to_nat (Qfloor pos) in
      let hi := Nat.min (lo + 1) (n - 1) in
      let frac := (pos - inject_Z (Qfloor pos))%Q in
      let a := nth lo s x0 in
      let b := nth hi s x0 in
      Num (a + (b - a) * frac)%Q
  end.

Definition Qsum (xs : list Q) : Q := foldr Qplus 0%Q xs.

(** Most frequent value of a non-numeric column, with its frequency. *)
Definition cell_eqb (a b : cell) : bool :=
  match a, b with
  | NaN, NaN => true
  | Num p, Num q => Qeq_bool p q
  | Str s, Str t => bool_decide (s = t)
  | Lst l, Lst m => bool_decide (l = m)
  | _, _ => false
  end.

Definition count_cell (c : cell) (l : list cell) : nat :=
  length (filter (λ d, cell_eqb c d = true) l).

Fixpoint distinct_cells (l : list cell) : list cell :=
  match l with
  | [] => []
  | c :: l' => c :: filter (λ d, cell_eqb c d = false) (distinct_cells l')
  end.

Definition top_freq (l : list cell) : cell * nat :=
  foldr (λ c best, if Nat.ltb (count_cell c l) (snd best) then best
                   else (c, count_cell c l))
        (NaN, 0) (distinct_cells l).

Definition of_nat (n : nat) : cell := Num (inject_Z (Z.of_nat n)).

(** [Series.describe()].  A numeric column yields count, mean, min, the
    three quartiles and max; any other column yields count, unique, top
    and freq, and has no ["min"] entry.  The standard deviation is an
    irrational quantity and is left out; the script never reads it. *)
Definition describe (s : Series) : gmap string cell :=
  if is_numeric (dtype_of s) then
    let xs := notna_values (values s) in
    let mean := match xs with
                | [] => NaN
                | _ => Num (Qsum xs / inject_Z (Z.of_nat (length xs)))%Q
                end in
    <["count" := of_nat (length xs)]>
    (<["mean" := mean]>
    (<["min" := nanmin xs]>
    (<["25%" := quantile xs (1 # 4)]>
    (<["50%" := quantile xs (1 # 2)]>
    (<["75%" := quantile xs (3 # 4)]>
    (<["max" := nanmax xs]> ∅))))))
  else
    let xs := filter (λ c, isna c = false) (values s) in
    let tf := top_freq xs in
    <["count" := of_nat (length xs)]>
    (<["unique" := of_nat (length (distinct_cells xs))]>
    (<["top" := fst tf]>
    (<["freq" := of_nat (snd tf)]> ∅))).

(** [describe()[key]] *)
Definition stat (s : Series) (key : string) : result cell :=
  match describe s !! key with
  | Some c => Ok c
  | None => Err (KeyError key)
  end.

(** ** pd.cut *)

(** [numpy.searchsorted(bins, x, side="left")] on ascending [bins]: the
    number of edges strictly below [x]. *)
Fixpoint searchsorted_left (bins : list Q) (x : Q) : nat :=
  match bins with
  | [] => 0
  | b :: bs => if Qltb b x then S (searchsorted_left bs x) else 0
  end.

Fixpoint is_monotonic_increasing (bins : list Q) : bool :=
  match bins with
  | [] => true
  | b :: bs =>
      match bs with
      | [] => true
      | b' :: _ => Qle_bool b b' && is_monotonic_increasing bs
      end
  end.

(** Bin number of one value, 0 standing for "no bin" (pandas' [ids] after
    the [na_mask] has been put in). *)
Definition bin_id (bins : list Q) (include_lowest : bool) (c : cell) : nat :=
  match cell_num c with
  | None => 0
  | Some x =>
      let id := searchsorted_left bins x in
      let id := match bins with
                | b0 :: _ => if include_lowest && Qeq_bool x b0 then 1 else id
                | [] => id
                end in
      if Nat.eqb id (length bins) then 0 else id
  end.

Definition take_label (labels : list string) (id : nat) : cell :=
  match id with
  | 0 => NaN
  | S k => match labels !! k with Some l => Str l | None => NaN end
  end.

(** [pd.cut(x, bins=bins, labels=labels, duplicates="drop",
    include_lowest=include_lowest)] with the default [right=True] and
    [ordered=True]. *)
Definition cut (x : Series) (bins : list Q) (labels : list string)
    (include_lowest : bool) : result Series :=
  if negb (is_numeric (dtype_of x)) then
    Err (TypeError "cannot bin a non-numeric column")
  else if negb (is_monotonic_increasing bins) then
    Err (ValueError "bins must increase monotonically.")
  else
    let unique_bins := unique bins in
    let bins :=
      if Nat.ltb (length unique_bins) (length bins)
         && negb (Nat.eqb (length bins) 2)
      then unique_bins else bins in
    let ids := bin_id bins include_lowest <$> values x in
    if negb (bool_decide (NoDup labels)) then
      Err (ValueError "labels must be unique if ordered=True; pass ordered=False for duplicate labels")
    else if negb (Nat.eqb (S (length labels)) (length bins)) then
      Err (ValueError "Bin labels must be one fewer than the number of bin edges")
    else
      Ok {| dtype_of := Category labels;
            values := take_label labels <$> ids |}.

(** ** The categorizer of the script *)

(** The five numbers read off [describe()]; a missing statistic (empty
    column) is a NaN edge, which [pd.cut] rejects. *)
Definition numeric_edges (cs : list cell) : result (list Q) :=
  match mapM cell_num cs with
  | Some qs => Ok qs
  | None => Err (ValueError "bins must increase monotonically.")
  end.

(** The first statement of [catigorize_col]: the five boundary values
    of [df[col]], as read off [describe()]. *)
Definition quartile_edges (df : DataFrame) (col : string) : result (list Q) :=
  s ← getitem df col;
  e0 ← stat s "min";
  e1 ← stat s "25%";
  e2 ← stat s "50%";
  e3 ← stat s "75%";
  e4 ← stat s "max";
  numeric_edges [e0; e1; e2; e3; e4].

Definition catigorize_col (df : DataFrame) (col : string) (labels : list string)
    : result DataFrame :=
  edges ← quartile_edges df col;
  let edges := sorted (set_of edges) in
  s ← getitem df col;
  c ← cut s edges (take (length edges - 1) labels) true;
  setitem df col c.

Definition labels : list string :=
  ["not_popular"; "below_avg"; "average"; "popular"].

(** ** Strings: Python's [str.split(sep)] *)

(** One left-to-right scan.  [skip] counts the characters of a separator
    still to be jumped over; [cur] is the piece being read. *)
Fixpoint split_scan (sep : string) (skip : nat) (cur : string) (s : string)
    : list string :=
  match s with
  | EmptyString => [cur]
  | String c s' =>
      match skip with
      | S k => split_scan sep k cur s'
      | O =>
          if String.prefix sep s
          then cur :: split_scan sep (String.length sep - 1) "" s'
          else split_scan sep 0 (cur +:+ String c "") s'
      end
  end.

Definition split (sep s : string) : list string := split_scan sep 0 "" s.

(** [", ".join(l)] *)
Fixpoint join (sep : string) (l : list string) : string :=
  match l with
  | [] => ""
  | [x] => x
  | x :: l' => x +:+ sep +:+ join sep l'
  end.

(** ** Whole-table operations *)

Definition columns (df : DataFrame) : list string := elements (dom (dtypes df)).

Definition row_isna (df : DataFrame) (r : gmap string cell) : bool :=
  existsb (λ c, isna (at_col c r)) (columns df).

(** [df.dropna(inplace=True)] *)
Definition dropna (df : DataFrame) : DataFrame :=
  {| dtypes := dtypes df;
     rows := filter (λ r, row_isna df r = false) (rows df) |}.

(** [df.drop(cols, axis=1, inplace=True)] *)
Definition drop (df : DataFrame) (cols : list string) : result DataFrame :=
  match filter (λ c, dtypes df !! c = None) cols with
  | c :: _ => Err (KeyError c)
  | [] =>
      Ok {| dtypes := foldr delete (dtypes df) cols;
            rows := (λ r, foldr delete r cols) <$> rows df |}
  end.

(** [Series.str.split(sep)]: a non-string element becomes missing. *)
Definition str_split (sep : string) (s : Series) : result Series :=
  if is_numeric (dtype_of s) then
    Err (AttributeError "Can only use .str accessor with string values!")
  else
    Ok {| dtype_of := Object;
          values := (λ c, match c with
                          | Str t => Lst (split sep t)
                          | _ => NaN
                          end) <$> values s |}.

(** The rows one record explodes into: one per element of its list, a
    single missing value for an empty list, the record itself when the
    cell is not a list. *)
Definition explode_row (col : string) (r : gmap string cell)
    : list (gmap string cell) :=
  match at_col col r with
  | Lst [] => [<[col := NaN]> r]
  | Lst l => (λ t, <[col := Str t]> r) <$> l
  | _ => [r]
  end.

(** [df.explode(col).reset_index(drop=True)].  Rows are positional
    here, so renumbering the index leaves the list as it is. *)
Definition explode (df : DataFrame) (col : string) : result DataFrame :=
  match dtypes df !! col with
  | None => Err (KeyError col)
  | Some _ =>
      Ok {| dtypes := dtypes df;
            rows := rows df ≫= explode_row col |}
  end.

Fixpoint insert_str (x : string) (l : list string) : list string :=
  match l with
  | [] => [x]
  | y :: l' => if String.leb x y then x :: l else y :: insert_str x l'
  end.

(** [Series.astype("category")]: the categories are the distinct
    non-missing values in ascending order. *)
Definition astype_category (s : Series) : Series :=
  let strs := omap (λ c, match c with Str t => Some t | _ => None end) (values s) in
  {| dtype_of := Category (foldr insert_str [] (remove_dups strs));
     values := values s |}.

(** [df.duplicated().sum()]: rows equal to an earlier row. *)
Definition row_eqb (df : DataFrame) (r1 r2 : gmap string cell) : bool :=
  forallb (λ c, cell_eqb (at_col c r1) (at_col c r2)) (columns df).

Fixpoint duplicated (df : DataFrame) (seen l : list (gmap string cell)) : list bool :=
  match l with
  | [] => []
  | r :: l' => existsb (row_eqb df r) seen :: duplicated df (r :: seen) l'
  end.

Definition duplicated_sum (df : DataFrame) : nat :=
  length (filter (λ b, b = true) (duplicated df [] (rows df))).

(** ** Reporter queries on popularity *)

(** [==] on floats: a missing value equals nothing, not even itself. *)
Definition float_eqb (a b : cell) : bool :=
  match cell_num a, cell_num b with
  | Some x, Some y => Qeq_bool x y
  | _, _ => false
  end.

(** [df[df['Popularity'] == pick(df['Popularity'])]], where [pick] is
    the reduction [max] or [min], which skips missing values.  The data
    model has popularity as a float column; the ordering of Python
    objects in a column of another dtype is not modelled, and such a
    frame is turned away here. *)
Definition popularity_query (pick : list Q → cell) (df : DataFrame)
    : result DataFrame :=
  s ← getitem df "Popularity";
  if is_numeric (dtype_of s) then
    let m := pick (notna_values (values s)) in
    Ok {| dtypes := dtypes df;
          rows := filter (λ r, float_eqb (at_col "Popularity" r) m = true)
                         (rows df) |}
  else Err (TypeError "popularity is not a number column").

(** [df[df['Popularity'] == df['Popularity'].max()]] *)
Definition highest_popularity : DataFrame → result DataFrame :=
  popularity_query nanmax.

(** [df[df['Popularity'] == df['Popularity'].min()]] *)
Definition lowest_popularity : DataFrame → result DataFrame :=
  popularity_query nanmin.

(** ** The script, statement by statement *)

Inductive step :=
  | ToYear
  | DropColumns
  | Categorize
  | DropNa
  | SplitGenre
  | ExplodeGenre
  | GenreAsCategory.

(** The cleaning part of [netflix.py], in program order. *)
Definition script : list step :=
  [ToYear; DropColumns; Categorize; DropNa; SplitGenre; ExplodeGenre;
   GenreAsCategory].

Definition cols : list string := ["Overview"; "Original_Language"; "Poster_Url"].

(** [df['Genre'] = df['Genre'].str.split(', ')] *)
Definition split_genre (df : DataFrame) : result DataFrame :=
  s ← getitem df "Genre";
  t ← str_split ", " s;
  setitem df "Genre" t.

(** [df['Genre'] = df['Genre'].astype('category')] *)
Definition genre_as_category (df : DataFrame) : result DataFrame :=
  s ← getitem df "Genre";
  setitem df "Genre" (astype_category s).

Section Pipeline.

(** The date parser of [pd.to_datetime], reduced to what the script
    keeps of a timestamp: its year.  [None] is a value that does not
    parse, which aborts the run. *)
Variable to_datetime : cell → option Z.

Definition year_cell (c : cell) : result cell :=
  if isna c then Ok NaN
  else match to_datetime c with
       | Some y => Ok (Num (inject_Z y))
       | None => Err (ValueError "Unknown datetime string format")
       end.

(** [df['Release_Date'] = pd.to_datetime(df['Release_Date'])] followed
    by [df['Release_Date'] = df['Release_Date'].dt.year]. *)
Definition to_year (df : DataFrame) : result DataFrame :=
  s ← getitem df "Release_Date";
  ys ← mapM year_cell (values s);
  setitem df "Release_Date"
    {| dtype_of := if existsb isna ys then Float64 else Int64;
       values := ys |}.

Definition exec (st : step) (df : DataFrame) : result DataFrame :=
  match st with
  | ToYear => to_year df
  | DropColumns => drop df cols
  | Categorize => catigorize_col df "Vote_Average" labels
  | DropNa => Ok (dropna df)
  | SplitGenre => split_genre df
  | ExplodeGenre => explode df "Genre"
  | GenreAsCategory => genre_as_category df
  end.

Fixpoint run (prog : list step) (df : DataFrame) : result DataFrame :=
  match prog with
  | [] => Ok df
  | st :: prog' => df' ← exec st df; run prog' df'
  end.

(** The data set handed to the reporter. *)
Definition pipeline (df : DataFrame) : result DataFrame := run script df.

End Pipeline.

(** A date parser for ISO dates ["YYYY-MM-DD"]: the year is read off the
    four leading digits. *)
Definition digit (a : Ascii.ascii) : option Z :=
  let n := Z.of_N (Ascii.N_of_ascii a) in
  if (48 <=? n)%Z && (n <=? 57)%Z then Some (n - 48)%Z else None.

Definition iso_year (c : cell) : option Z :=
  match c with
  | Str (String a (String b (String c (String d _)))) =>
      match digit a, digit b, digit c, digit d with
      | Some x, Some y, Some z, Some w => Some (1000 * x + 100 * y + 10 * z + w)%Z
      | _, _, _, _ => None
      end
  | _ => None
  end.

Definition movie (date title : string) (pop : Q) (votes : Z) (avg : Q)
    (lang genre : string) : gmap string cell :=
  <["Release_Date" := Str date]>
  (<["Title" := Str title]>
  (<["Overview" := Str "-"]>
  (<["Popularity" := Num pop]>
  (<["Vote_Count" := Num (inject_Z votes)]>
  (<["Vote_Average" := Num avg]>
  (<["Original_Language" := Str lang]>
  (<["Genre" := Str genre]>
  (<["Poster_Url" := Str "-"]> ∅)))))))).

Definition csv_dtypes : gmap string dtype :=
  <["Release_Date" := Object]>
  (<["Title" := Object]>
  (<["Overview" := Object]>
  (<["Popularity" := Float64]>
  (<["Vote_Count" := Int64]>
  (<["Vote_Average" := Float64]>
  (<["Original_Language" := Object]>
  (<["Genre" := Object]>
  (<["Poster_Url" := Object]> ∅)))))))).

Definition sample : DataFrame :=
  {| dtypes := csv_dtypes;
     rows := [ movie "2021-12-15" "A" 5083.954 8940 8.3 "en" "Action, Adventure, Science Fiction";
               movie "2022-03-01" "B" 3827.658 1151 8.1 "en" "Crime, Mystery";
               movie "2022-02-25" "C" 2618.087 122 6.3 "en" "Thriller";
               movie "2021-11-24" "D" 2402.201 5076 7.7 "en" "Animation, Comedy";
               movie "2021-12-22" "E" 1895.511 1793 7.0 "en" "Action" ] |}.

(** * Vocabulary of the statements *)

(** No two entries of a list are numerically equal. *)
Inductive Distinct : list Q → Prop :=
  | Distinct_nil : Distinct []
  | Distinct_cons x l :
      Forall (λ y, ¬ (x == y)%Q) l → Distinct l → Distinct (x :: l).

(** The bin edges [catigorize_col] passes to [pd.cut]:
    [sorted(set(edges))]. *)
Definition bin_edges (qs : list Q) : list Q := sorted (set_of qs).

(** The bin a value lies in: right-closed intervals, the lowest one
    closed on the left as well. *)
Definition in_bin (E : list Q) (j : nat) (x : Q) : Prop :=
  ∃ lo hi, E !! j = Some lo ∧ E !! S j = Some hi
           ∧ (((lo < x)%Q ∧ (x <= hi)%Q) ∨ (j = 0 ∧ (x == lo)%Q)).

(** The label [pd.cut] gives one cell, for edges [E] and labels [L]. *)
Definition binned (E : list Q) (L : list string) (c : cell) : cell :=
  take_label L (bin_id E true c).

(** The cells of one column, top to bottom. *)
Definition column (df : DataFrame) (col : string) : list cell :=
  at_col col <$> rows df.

(** A frame with the single score column [Vote_Average]. *)
Definition scores (l : list Q) : DataFrame :=
  {| dtypes := {[ "Vote_Average" := Float64 ]};
     rows := (λ v, {[ "Vote_Average" := Num v ]}) <$> l |}.

(** The rule with intervals closed on the left: a score on an interior
    edge would carry the label of the bin above that edge. *)
Definition upper_bin_rule (df : DataFrame) (col : string) (lbls : list string)
    : Prop :=
  ∀ df' qs (i j : nat) x e lbl,
    catigorize_col df col lbls = Ok df' →
    quartile_edges df col = Ok qs →
    column df col !! i = Some (Num x) →
    bin_edges qs !! j = Some e → 0 < j → S j < length (bin_edges qs) →
    (x == e)%Q →
    lbls !! j = Some lbl →
    column df' col !! i = Some (Str lbl).

(** Every score of the column receives one of the labels. *)
Definition total_labelling (df : DataFrame) (col : string) (lbls : list string)
    : Prop :=
  ∃ df', catigorize_col df col lbls = Ok df'
         ∧ ∀ (i : nat) x, column df col !! i = Some (Num x) →
             ∃ lbl, lbl ∈ lbls ∧ column df' col !! i = Some (Str lbl).

(** Categorization of the column stops with an error. *)
Definition categorization_fails (df : DataFrame) (col : string)
    (lbls : list string) : Prop :=
  ∃ e, catigorize_col df col lbls = Err e.

(** The cell [str.split] leaves in place of a genre string. *)
Definition split_cell (c : cell) : cell :=
  match c with Str t => Lst (split ", " t) | _ => NaN end.

(** The comma-space-separated tags of a record. *)
Definition genre_tags (r : gmap string cell) : list string :=
  match at_col "Genre" r with
  | Str g => split ", " g
  | _ => []
  end.

(** Two movies, the first with two genres. *)
Definition two_movies : DataFrame :=
  {| dtypes := csv_dtypes;
     rows := [ movie "2017-01-01" "A" 10 100 7.0 "en" "Drama, War";
               movie "2018-01-01" "B" 20 200 8.0 "en" "Comedy" ] |}.

(** Three records, the second a copy of the first. *)
Definition twins : DataFrame :=
  {| dtypes := csv_dtypes;
     rows := [ movie "2017-01-01" "A" 10 100 7.0 "en" "Drama";
               movie "2017-01-01" "A" 10 100 7.0 "en" "Drama";
               movie "2018-01-01" "B" 20 200 8.0 "en" "Comedy" ] |}.

(** The number of rows of an outcome, when there is one. *)
Definition row_count (r : result DataFrame) : option nat :=
  match r with Ok d => Some (length (rows d)) | Err _ => None end.

(** The popularity of a record, when it has one. *)
Definition popularity (r : gmap string cell) : option Q :=
  cell_num (at_col "Popularity" r).

(** The record's popularity is the extreme one of the whole table;
    [R y m] says that [m] is at least as extreme as [y]. *)
Definition extreme (R : Q → Q → Prop) (df : DataFrame)
    (r : gmap string cell) : Prop :=
  ∃ p, popularity r = Some p
       ∧ ∀ r' p', r' ∈ rows df → popularity r' = Some p' → R p' p.

(** The record's popularity is the greatest (the least) of the table. *)
Definition most_popular : DataFrame → gmap string cell → Prop :=
  extreme Qle.
Definition least_popular : DataFrame → gmap string cell → Prop :=
  extreme (λ y m, (m <= y)%Q).

(** Three exploded rows; the two rows of movie A tie for the maximum. *)
Definition three_rows : DataFrame :=
  {| dtypes := {[ "Popularity" := Float64 ]};
     rows := [ <["Title" := Str "A"]> {[ "Popularity" := Num 9.5%Q ]};
               <["Title" := Str "A'"]> {[ "Popularity" := Num 9.5%Q ]};
               <["Title" := Str "B"]> {[ "Popularity" := Num 1.25%Q ]} ] |}.

(** Syntactic equality of cells and rows is decidable. *)
#[global] Instance Q_eq_dec : EqDecision Q.
Proof. solve_decision. Defined.

#[global] Instance cell_eq_dec : EqDecision cell.
Proof. solve_decision. Defined.

(** No cell of the table is missing. *)
Definition no_missing (df : DataFrame) : Prop :=
  ∀ r c, r ∈ rows df → c ∈ dom (dtypes df) →
         ∃ v, r !! c = Some v ∧ isna v = false.

(** A genre cell as the loader leaves it: text, or missing. *)
Definition text_or_missing (c : cell) : Prop := c = NaN ∨ ∃ g, c = Str g.

(** Step [a] is executed before step [b]. *)
Definition runs_before (a b : step) (prog : list step) : Prop :=
  ∃ i j : nat, prog !! i = Some a ∧ prog !! j = Some b ∧ i < j.

(** Categorization of the scores keeps a table free of missing values. *)
Definition keeps_no_missing (df : DataFrame) : Prop :=
  ∀ df', no_missing df →
         catigorize_col df "Vote_Average" labels = Ok df' → no_missing df'.

(** [df.isna().sum()]: for each column, the number of missing cells. *)
Definition isna_sum (df : DataFrame) : gmap string nat :=
  map_imap (λ c _, Some (length (filter (λ v, isna v = true) (column df c))))
           (dtypes df).

(** The cell is a single value, not a list. *)
Definition scalar (c : cell) : Prop := ∀ l, c ≠ Lst l.

(** The year cell the date conversion leaves in place of a date:
    missing for a missing date, the parsed year otherwise. *)
Definition year_of (parse : cell → option Z) (c : cell) : cell :=
  if isna c then NaN
  else match parse c with Some y => Num (inject_Z y) | None => NaN end.

(** Three movies, the second without a genre. *)
Definition genre_gap : DataFrame :=
  {| dtypes := csv_dtypes;
     rows := [ movie "2017-01-01" "A" 10 100 7.0 "en" "Drama, War";
               <["Genre" := NaN]> (movie "2018-01-01" "B" 20 200 8.0 "en" "");
               movie "2019-01-01" "C" 30 300 9.0 "en" "Comedy" ] |}.

(** What the script needs of the table it is given: a release-date
    column whose dates parse, the three columns it drops, a numeric
    score column holding a number, and a genre column that is not
    numeric. *)
Definition runnable (parse : cell → option Z) (df : DataFrame) : Prop :=
  is_Some (dtypes df !! "Release_Date")
  ∧ Forall (λ c, isna c = true ∨ is_Some (parse c)) (column df "Release_Date")
  ∧ Forall (λ c, is_Some (dtypes df !! c)) cols
  ∧ (∃ d, dtypes df !! "Vote_Average" = Some d ∧ is_numeric d = true)
  ∧ (∃ x, Num x ∈ column df "Vote_Average")
  ∧ (∃ d, dtypes df !! "Genre" = Some d ∧ is_numeric d = false).

(** The cells of a cleaned record: a label for the score, a year for
    the release date, and none of the dropped columns. *)
Definition cleaned (r : gmap string cell) : Prop :=
  (∃ l, l ∈ labels ∧ r !! "Vote_Average" = Some (Str l))
  ∧ (∃ y, r !! "Release_Date" = Some (Num (inject_Z y)))
  ∧ ∀ c, c ∈ cols → r !! c = None.






(** * Properties *)

(** ** The result monad *)

Lemma bind_Ok {A B} (m : result A) (f : A → result B) (b : B) :
  m ≫= f = Ok b → ∃ a, m = Ok a ∧ f a = Ok b.
Proof. destruct m as [a|e]; simpl; [eauto | discriminate]. Qed.

Ltac inv_bind H :=
  let a := fresh "a" in
  let Ha := fresh "Ha" in
  apply bind_Ok in H as (a & Ha & H).

(** ** Booleans on rationals *)

Lemma Qltb_lt x y : Qltb x y = true ↔ (x < y)%Q.
Proof.
  unfold Qltb. rewrite negb_true_iff.
  split; intros H.
  - apply Qnot_le_lt. intros Hle. apply Qle_bool_iff in Hle. congruence.
  - destruct (Qle_bool y x) eqn:E; [|done].
    apply Qle_bool_iff in E. exfalso. eapply Qlt_not_le; eauto.
Qed.

Lemma Qltb_ge x y : Qltb x y = false ↔ (y <= x)%Q.
Proof.
  unfold Qltb. rewrite negb_false_iff. apply Qle_bool_iff.
Qed.

Lemma Qle_bool_false x y : Qle_bool x y = false ↔ (y < x)%Q.
Proof.
  split; intros H.
  - apply Qnot_le_lt. intros Hle. apply Qle_bool_iff in Hle. congruence.
  - destruct (Qle_bool x y) eqn:E; [|done].
    apply Qle_bool_iff in E. exfalso. eapply Qlt_not_le; eauto.
Qed.

Lemma Qeq_bool_false x y : Qeq_bool x y = false ↔ ¬ (x == y)%Q.
Proof.
  split.
  - apply Qeq_bool_neq.
  - intros H. destruct (Qeq_bool x y) eqn:E; [|done].
    apply Qeq_bool_iff in E. contradiction.
Qed.

(** ** Sorting and deduplication *)

Lemma insert_sorted_elem x y l : y ∈ insert_sorted x l ↔ y = x ∨ y ∈ l.
Proof.
  induction l as [|z l IH]; simpl.
  - rewrite list_elem_of_singleton, elem_of_nil. tauto.
  - destruct (Qle_bool x z); rewrite !elem_of_cons; [tauto|].
    rewrite IH. tauto.
Qed.

Lemma sorted_elem y l : y ∈ sorted l ↔ y ∈ l.
Proof.
  induction l as [|x l IH]; simpl; [done|].
  rewrite insert_sorted_elem, elem_of_cons, IH. tauto.
Qed.

Lemma insert_sorted_length x l : length (insert_sorted x l) = S (length l).
Proof.
  induction l as [|z l IH]; simpl; [done|].
  destruct (Qle_bool x z); simpl; lia.
Qed.

Lemma sorted_length l : length (sorted l) = length l.
Proof.
  induction l as [|x l IH]; simpl; [done|].
  rewrite insert_sorted_length. lia.
Qed.

(** Inserting a value that differs from every element keeps a strictly
    ascending list strictly ascending. *)
Lemma insert_sorted_strict x l :
  StronglySorted Qlt l → Forall (λ y, ¬ (x == y)%Q) l →
  StronglySorted Qlt (insert_sorted x l).
Proof.
  induction 1 as [|z l Hs IH Hz]; intros Hx; simpl.
  - repeat constructor.
  - apply Forall_cons in Hx as [Hxz Hx].
    destruct (Qle_bool x z) eqn:E.
    + apply Qle_bool_iff in E.
      assert (x < z)%Q as Hlt.
      { apply Qle_lt_or_eq in E as [|]; [done | contradiction]. }
      constructor; [by constructor|].
      constructor; [done|].
      eapply Forall_impl; [exact Hz|]. intros w Hw; simpl in Hw. lra.
    + apply Qle_bool_false in E.
      constructor; [by apply IH|].
      apply Forall_forall. intros w Hw.
      apply insert_sorted_elem in Hw as [->|Hw]; [done|].
      rewrite Forall_forall in Hz. by apply Hz.
Qed.

Lemma Distinct_filter (P : Q → Prop) `{!∀ x, Decision (P x)} l :
  Distinct l → Distinct (filter P l).
Proof.
  induction 1 as [|x l Hx Hd IH]; [constructor|].
  rewrite filter_cons. destruct (decide (P x)); [|done].
  constructor; [|done].
  apply Forall_forall. intros y Hy. apply list_elem_of_filter in Hy as [_ Hy].
  rewrite Forall_forall in Hx. by apply Hx.
Qed.

Lemma unique_Distinct l : Distinct (unique l).
Proof.
  induction l as [|x l IH]; simpl; constructor.
  - apply Forall_forall. intros y Hy.
    apply list_elem_of_filter in Hy as [Hy _]. by apply Qeq_bool_false.
  - by apply Distinct_filter.
Qed.

Lemma unique_elem y l : y ∈ unique l → y ∈ l.
Proof.
  revert y. induction l as [|x l IH]; intros y; simpl; [done|].
  rewrite !elem_of_cons. intros [->|Hy]; [by left|].
  apply list_elem_of_filter in Hy as [_ Hy]. right. by apply IH.
Qed.

(** Every value of [l] has a numerically equal representative. *)
Lemma unique_covers y l : y ∈ l → ∃ z, z ∈ unique l ∧ (z == y)%Q.
Proof.
  induction l as [|x l IH]; [by rewrite elem_of_nil|].
  rewrite elem_of_cons. intros [->|Hy].
  - exists x. split; [simpl; apply list_elem_of_here | reflexivity].
  - destruct (IH Hy) as (z & Hz & Hzy).
    destruct (Qeq_bool x z) eqn:E.
    + apply Qeq_bool_iff in E. exists x.
      split; [simpl; apply list_elem_of_here|]. by rewrite E.
    + exists z. split; [|done]. simpl. apply elem_of_cons. right.
      by apply list_elem_of_filter.
Qed.

Lemma filter_all {A} (P : A → Prop) `{!∀ x, Decision (P x)} (l : list A) :
  Forall P l → filter P l = l.
Proof.
  induction 1 as [|x l Hx Hl IH]; [done|].
  by rewrite filter_cons_True, IH.
Qed.

Lemma unique_fixed l : Distinct l → unique l = l.
Proof.
  induction 1 as [|x l Hx Hd IH]; simpl; [done|].
  rewrite IH. f_equal. apply filter_all.
  eapply Forall_impl; [exact Hx|]. intros y Hy. by apply Qeq_bool_false.
Qed.

Lemma sorted_strict l : Distinct l → StronglySorted Qlt (sorted l).
Proof.
  induction 1 as [|x l Hx Hd IH]; [constructor|].
  change (sorted (x :: l)) with (insert_sorted x (sorted l)).
  apply insert_sorted_strict; [done|].
  apply Forall_forall. intros y Hy. rewrite sorted_elem in Hy.
  rewrite Forall_forall in Hx. exact (Hx y Hy).
Qed.

Lemma strict_Distinct l : StronglySorted Qlt l → Distinct l.
Proof.
  induction 1 as [|x l Hs IH Hx]; constructor; [|done].
  eapply Forall_impl; [exact Hx|]. intros y Hy Heq. simpl in Hy. lra.
Qed.

Lemma strict_monotonic l :
  StronglySorted Qlt l → is_monotonic_increasing l = true.
Proof.
  induction 1 as [|x l Hs IH Hx]; [done|].
  destruct l as [|y l]; [done|].
  change (Qle_bool x y && is_monotonic_increasing (y :: l) = true).
  rewrite IH, andb_true_r. apply Qle_bool_iff.
  apply Forall_cons in Hx as [Hxy _]. lra.
Qed.

(** Positions in a strictly ascending list are ordered like its values. *)
Lemma strict_lookup_lt (l : list Q) (i j : nat) a b :
  StronglySorted Qlt l → l !! i = Some a → l !! j = Some b →
  i < j → (a < b)%Q.
Proof.
  intros Hs. revert i j. induction Hs as [|x l Hs IH Hx]; intros i j Hi Hj Hij.
  - by rewrite lookup_nil in Hi.
  - destruct j as [|j]; [lia|]. simpl in Hj.
    destruct i as [|i]; simpl in Hi.
    + injection Hi as ->. rewrite Forall_forall in Hx. apply Hx.
      by eapply list_elem_of_lookup_2.
    + eapply IH; eauto. lia.
Qed.

Lemma strict_lookup_le (l : list Q) (i j : nat) a b :
  StronglySorted Qlt l → l !! i = Some a → l !! j = Some b →
  i ≤ j → (a <= b)%Q.
Proof.
  intros Hs Hi Hj Hij. destruct (decide (i = j)) as [->|Hne].
  - rewrite Hi in Hj. injection Hj as ->. lra.
  - apply Qlt_le_weak. eapply strict_lookup_lt; eauto. lia.
Qed.

(** ** Order statistics *)

Lemma foldl_min_spec (l : list Q) (m : Q) :
  let r := foldl (λ m y, if Qle_bool m y then m else y) m l in
  r ∈ m :: l ∧ (r <= m)%Q ∧ Forall (λ y, (r <= y)%Q) l.
Proof.
  revert m. induction l as [|y l IH]; intros m; simpl.
  - split; [apply list_elem_of_here|]. split; [lra | constructor].
  - destruct (Qle_bool m y) eqn:E.
    + apply Qle_bool_iff in E. destruct (IH m) as (Hin & Hle & Hall).
      split; [|split].
      * rewrite !elem_of_cons in *. tauto.
      * done.
      * constructor; [lra | done].
    + apply Qle_bool_false in E. destruct (IH y) as (Hin & Hle & Hall).
      split; [|split].
      * rewrite !elem_of_cons in *. tauto.
      * lra.
      * constructor; [lra | done].
Qed.

Lemma foldl_max_spec (l : list Q) (m : Q) :
  let r := foldl (λ m y, if Qle_bool y m then m else y) m l in
  r ∈ m :: l ∧ (m <= r)%Q ∧ Forall (λ y, (y <= r)%Q) l.
Proof.
  revert m. induction l as [|y l IH]; intros m; simpl.
  - split; [apply list_elem_of_here|]. split; [lra | constructor].
  - destruct (Qle_bool y m) eqn:E.
    + apply Qle_bool_iff in E. destruct (IH m) as (Hin & Hle & Hall).
      split; [|split].
      * rewrite !elem_of_cons in *. tauto.
      * done.
      * constructor; [lra | done].
    + apply Qle_bool_false in E. destruct (IH y) as (Hin & Hle & Hall).
      split; [|split].
      * rewrite !elem_of_cons in *. tauto.
      * lra.
      * constructor; [lra | done].
Qed.

Lemma nanmin_spec (xs : list Q) :
  xs ≠ [] → ∃ m, nanmin xs = Num m ∧ m ∈ xs ∧ ∀ y, y ∈ xs → (m <= y)%Q.
Proof.
  destruct xs as [|x l]; [done|]. intros _.
  destruct (foldl_min_spec l x) as (Hin & Hle & Hall).
  eexists. split; [reflexivity|]. split; [done|].
  intros y Hy. apply elem_of_cons in Hy as [->|Hy]; [done|].
  rewrite Forall_forall in Hall. by apply Hall.
Qed.

Lemma nanmax_spec (xs : list Q) :
  xs ≠ [] → ∃ m, nanmax xs = Num m ∧ m ∈ xs ∧ ∀ y, y ∈ xs → (y <= m)%Q.
Proof.
  destruct xs as [|x l]; [done|]. intros _.
  destruct (foldl_max_spec l x) as (Hin & Hle & Hall).
  eexists. split; [reflexivity|]. split; [done|].
  intros y Hy. apply elem_of_cons in Hy as [->|Hy]; [done|].
  rewrite Forall_forall in Hall. by apply Hall.
Qed.

Lemma nth_elem (s : list Q) (x0 : Q) (n : nat) :
  x0 ∈ s → nth n s x0 ∈ s.
Proof.
  intros H0. destruct (decide (n < length s)) as [Hn|Hn].
  - apply list_elem_of_In, nth_In. done.
  - rewrite nth_overflow by lia. done.
Qed.

(** An interpolated percentile lies between any two bounds of the data. *)
Lemma quantile_spec (xs : list Q) (q lo hi : Q) :
  xs ≠ [] → (∀ y, y ∈ xs → (lo <= y <= hi)%Q) →
  ∃ v, quantile xs q = Num v ∧ (lo <= v <= hi)%Q.
Proof.
  intros Hne Hb. unfold quantile.
  destruct (sorted xs) as [|x0 s'] eqn:Es.
  { apply (f_equal length) in Es. rewrite sorted_length in Es.
    destruct xs; [done | discriminate]. }
  set (s := x0 :: s') in *.
  assert (x0 ∈ s) as H0 by apply list_elem_of_here.
  set (pos := (inject_Z (Z.of_nat (length s - 1)) * q)%Q).
  set (t := (pos - inject_Z (Qfloor pos))%Q).
  assert (0 <= t <= 1)%Q as Ht.
  { unfold t. pose proof (Qfloor_le pos) as H1.
    pose proof (Qlt_floor pos) as H2.
    rewrite inject_Z_plus in H2. change (inject_Z 1) with 1%Q in H2.
    split; lra. }
  eexists. split; [reflexivity|].
  set (a := nth _ s x0). set (b := nth _ s x0).
  assert (lo <= a <= hi)%Q as Ha.
  { apply Hb. rewrite <- sorted_elem, Es. by apply nth_elem. }
  assert (lo <= b <= hi)%Q as Hbb.
  { apply Hb. rewrite <- sorted_elem, Es. by apply nth_elem. }
  split; nra.
Qed.

(** ** describe and the quartile edges *)

Lemma stat_numeric_min s :
  is_numeric (dtype_of s) = true →
  stat s "min" = Ok (nanmin (notna_values (values s))).
Proof. intros H. unfold stat, describe. rewrite H. by simplify_map_eq. Qed.

Lemma stat_numeric_max s :
  is_numeric (dtype_of s) = true →
  stat s "max" = Ok (nanmax (notna_values (values s))).
Proof. intros H. unfold stat, describe. rewrite H. by simplify_map_eq. Qed.

Lemma stat_numeric_25 s :
  is_numeric (dtype_of s) = true →
  stat s "25%" = Ok (quantile (notna_values (values s)) (1 # 4)).
Proof. intros H. unfold stat, describe. rewrite H. by simplify_map_eq. Qed.

Lemma stat_numeric_50 s :
  is_numeric (dtype_of s) = true →
  stat s "50%" = Ok (quantile (notna_values (values s)) (1 # 2)).
Proof. intros H. unfold stat, describe. rewrite H. by simplify_map_eq. Qed.

Lemma stat_numeric_75 s :
  is_numeric (dtype_of s) = true →
  stat s "75%" = Ok (quantile (notna_values (values s)) (3 # 4)).
Proof. intros H. unfold stat, describe. rewrite H. by simplify_map_eq. Qed.

(** A column that is not numeric has no ["min"] in its summary. *)
Lemma stat_min_KeyError s :
  is_numeric (dtype_of s) = false → stat s "min" = Err (KeyError "min").
Proof. intros H. unfold stat, describe. rewrite H. by simplify_map_eq. Qed.

(** The numbers of a numeric column, as rows see them. *)
Lemma notna_values_elem (cs : list cell) (x : Q) :
  x ∈ notna_values cs ↔ Num x ∈ cs.
Proof.
  unfold notna_values. rewrite list_elem_of_omap. split.
  - intros (c & Hc & Hx). destruct c; simpl in Hx; try discriminate.
    by injection Hx as ->.
  - intros Hc. exists (Num x). done.
Qed.

(** On a numeric column with at least one number the five boundary
    values exist, start at the minimum, end at the maximum and lie
    between the two. *)
Lemma quartile_edges_spec df col s :
  getitem df col = Ok s → is_numeric (dtype_of s) = true →
  notna_values (values s) ≠ [] →
  ∃ mn q1 q2 q3 mx,
    quartile_edges df col = Ok [mn; q1; q2; q3; mx]
    ∧ Num mn ∈ values s ∧ Num mx ∈ values s
    ∧ (∀ y, Num y ∈ values s → (mn <= y <= mx)%Q)
    ∧ (mn <= q1 <= mx)%Q ∧ (mn <= q2 <= mx)%Q ∧ (mn <= q3 <= mx)%Q.
Proof.
  intros Hs Hnum Hne.
  destruct (nanmin_spec _ Hne) as (mn & Emn & Hmn_in & Hmn).
  destruct (nanmax_spec _ Hne) as (mx & Emx & Hmx_in & Hmx).
  assert (∀ y, y ∈ notna_values (values s) → (mn <= y <= mx)%Q) as Hb.
  { intros y Hy. split; [by apply Hmn | by apply Hmx]. }
  destruct (quantile_spec _ (1 # 4) mn mx Hne Hb) as (q1 & E1 & H1).
  destruct (quantile_spec _ (1 # 2) mn mx Hne Hb) as (q2 & E2 & H2).
  destruct (quantile_spec _ (3 # 4) mn mx Hne Hb) as (q3 & E3 & H3).
  exists mn, q1, q2, q3, mx.
  split; [|split; [|split; [|split]]].
  - unfold quartile_edges. rewrite Hs. simpl.
    rewrite stat_numeric_min, stat_numeric_25, stat_numeric_50,
      stat_numeric_75, stat_numeric_max by done. simpl.
    rewrite Emn, E1, E2, E3, Emx. reflexivity.
  - by apply notna_values_elem.
  - by apply notna_values_elem.
  - intros y Hy. apply Hb. by apply notna_values_elem.
  - done.
Qed.

(** Whenever the boundary values can be read at all, the column is
    numeric and holds a number. *)
Lemma quartile_edges_inv df col qs :
  quartile_edges df col = Ok qs →
  ∃ s, getitem df col = Ok s ∧ is_numeric (dtype_of s) = true
       ∧ notna_values (values s) ≠ [].
Proof.
  unfold quartile_edges. intros H. inv_bind H. rename a into s.
  exists s. split; [done|].
  destruct (is_numeric (dtype_of s)) eqn:Hnum.
  - split; [done|]. intros Hnil.
    rewrite stat_numeric_min in H by done. rewrite Hnil in H. simpl in H.
    repeat (inv_bind H). unfold numeric_edges in H. simpl in H. discriminate.
  - rewrite stat_min_KeyError in H by done. discriminate.
Qed.

(** ** Bins: the deduplicated, sorted edges *)

Lemma bin_edges_strict qs : StronglySorted Qlt (bin_edges qs).
Proof. apply sorted_strict, unique_Distinct. Qed.

Lemma bin_edges_elem qs e : e ∈ bin_edges qs → e ∈ qs.
Proof. unfold bin_edges. rewrite sorted_elem. apply unique_elem. Qed.

Lemma bin_edges_covers qs q : q ∈ qs → ∃ e, e ∈ bin_edges qs ∧ (e == q)%Q.
Proof.
  intros Hq. destruct (unique_covers _ _ Hq) as (e & He & Heq).
  exists e. split; [|done]. unfold bin_edges. by rewrite sorted_elem.
Qed.

Lemma bin_edges_length qs : length (bin_edges qs) ≤ length qs.
Proof.
  unfold bin_edges, set_of. rewrite sorted_length.
  induction qs as [|x l IH]; simpl; [done|].
  pose proof (length_filter (λ y, Qeq_bool x y = false) (unique l)). lia.
Qed.

Lemma bin_edges_nonempty qs : qs ≠ [] → bin_edges qs ≠ [].
Proof.
  destruct qs as [|x l]; [done|]. intros _ H.
  apply (f_equal length) in H. unfold bin_edges in H.
  rewrite sorted_length in H. simpl in H. discriminate.
Qed.

(** The lowest edge is the least boundary value. *)
Lemma bin_edges_first qs mn :
  mn ∈ qs → (∀ y, y ∈ qs → (mn <= y)%Q) →
  ∃ e0, bin_edges qs !! 0 = Some e0 ∧ (e0 == mn)%Q.
Proof.
  intros Hin Hle.
  destruct (bin_edges_covers _ _ Hin) as (e & He & Heq).
  pose proof (bin_edges_strict qs) as Hs.
  destruct (bin_edges qs) as [|e0 E] eqn:EE; [by apply elem_of_nil in He|].
  exists e0. split; [done|].
  assert (mn <= e0)%Q.
  { apply Hle, bin_edges_elem. rewrite EE. apply list_elem_of_here. }
  apply list_elem_of_lookup_1 in He as [i Hi].
  assert (e0 <= e)%Q.
  { eapply (strict_lookup_le (e0 :: E) 0 i); eauto. lia. }
  lra.
Qed.

(** The highest edge is the greatest boundary value. *)
Lemma bin_edges_last qs mx :
  mx ∈ qs → (∀ y, y ∈ qs → (y <= mx)%Q) →
  ∃ e, bin_edges qs !! (length (bin_edges qs) - 1) = Some e ∧ (e == mx)%Q.
Proof.
  intros Hin Hle.
  destruct (bin_edges_covers _ _ Hin) as (e & He & Heq).
  pose proof (bin_edges_strict qs) as Hs.
  apply list_elem_of_lookup_1 in He as [i Hi].
  pose proof (lookup_lt_Some _ _ _ Hi) as Hlt.
  destruct (lookup_lt_is_Some_2 (bin_edges qs) (length (bin_edges qs) - 1))
    as [el Hel]; [lia|].
  exists el. split; [done|].
  assert (el <= mx)%Q.
  { apply Hle, bin_edges_elem. by eapply list_elem_of_lookup_2. }
  assert (e <= el)%Q.
  { eapply (strict_lookup_le _ i); eauto. lia. }
  lra.
Qed.

(** ** Locating a value among strictly ascending edges *)

Lemma searchsorted_left_bin (E : list Q) (j : nat) (lo hi x : Q) :
  StronglySorted Qlt E → E !! j = Some lo → E !! S j = Some hi →
  (lo < x)%Q → (x <= hi)%Q → searchsorted_left E x = S j.
Proof.
  intros Hs. revert j. induction Hs as [|b E Hs IH Hb]; intros j Hlo Hhi Hl Hh.
  - by rewrite lookup_nil in Hlo.
  - simpl in Hhi. destruct j as [|j]; simpl in Hlo.
    + injection Hlo as ->. simpl.
      apply Qltb_lt in Hl. rewrite Hl. f_equal.
      destruct E as [|h E]; [done|]. simpl in Hhi. injection Hhi as ->.
      simpl. apply Qltb_ge in Hh. by rewrite Hh.
    + simpl. assert (Qltb b x = true) as ->.
      { apply Qltb_lt. rewrite Forall_forall in Hb.
        pose proof (Hb lo (list_elem_of_lookup_2 _ _ _ Hlo)). simpl in *. lra. }
      f_equal. by apply IH.
Qed.

Lemma bin_id_spec (E : list Q) (j : nat) (x : Q) :
  StronglySorted Qlt E → in_bin E j x → bin_id E true (Num x) = S j.
Proof.
  intros Hs (lo & hi & Hlo & Hhi & Hx). unfold bin_id. simpl cell_num. cbv iota.
  pose proof (lookup_lt_Some _ _ _ Hhi) as Hlen.
  destruct E as [|b0 E'] eqn:EE; [by rewrite lookup_nil in Hlo|].
  rewrite <- EE in *. simpl andb.
  assert (b0 <= lo)%Q as Hb0.
  { eapply (strict_lookup_le E 0 j); eauto; [by rewrite EE | lia]. }
  destruct (Qeq_bool x b0) eqn:Eq.
  - apply Qeq_bool_iff in Eq.
    assert (j = 0) as -> by (destruct Hx as [[? ?]|[? ?]]; [lra | done]).
    destruct (Nat.eqb_spec 1 (length E)); [lia | done].
  - apply Qeq_bool_false in Eq.
    destruct Hx as [[Hl Hh]|[-> Heq]].
    + rewrite (searchsorted_left_bin E j lo hi x) by done.
      destruct (Nat.eqb_spec (S j) (length E)); [lia | done].
    + rewrite EE in Hlo. simpl in Hlo. injection Hlo as ->. contradiction.
Qed.

Lemma bin_above (E : list Q) (x e0 el : Q) :
  StronglySorted Qlt E → E !! 0 = Some e0 →
  E !! (length E - 1) = Some el → (e0 < x)%Q → (x <= el)%Q →
  ∃ j lo hi, E !! j = Some lo ∧ E !! S j = Some hi
             ∧ (lo < x)%Q ∧ (x <= hi)%Q.
Proof.
  intros Hs. revert e0. induction Hs as [|a E Hs IH Ha]; intros e0 H0 Hl Hlt Hle.
  - by rewrite lookup_nil in H0.
  - simpl in H0. injection H0 as ->.
    destruct E as [|b E'].
    + simpl in Hl. injection Hl as ->. lra.
    + destruct (Qlt_le_dec b x) as [Hbx|Hbx].
      * destruct (IH b) as (j & lo & hi & Hlo & Hhi & H1 & H2); [done| |done|done|].
        { simpl in *. by rewrite Nat.sub_0_r in *. }
        exists (S j), lo, hi. done.
      * exists 0, e0, b. done.
Qed.

(** Every value between the lowest and the highest edge has a bin,
    provided there are at least two edges. *)
Lemma bin_exists (E : list Q) (x e0 el : Q) :
  StronglySorted Qlt E → 2 ≤ length E → E !! 0 = Some e0 →
  E !! (length E - 1) = Some el → (e0 <= x)%Q → (x <= el)%Q →
  ∃ j, in_bin E j x.
Proof.
  intros Hs Hlen H0 Hl Hlo Hhi.
  destruct (Qlt_le_dec e0 x) as [Hlt|Hge].
  - destruct (bin_above E x e0 el) as (j & lo & hi & ? & ? & ? & ?); try done.
    exists j, lo, hi. by eauto.
  - destruct (lookup_lt_is_Some_2 E 1) as [e1 H1]; [lia|].
    exists 0, e0, e1. split; [done|]. split; [done|]. right. split; [done|]. lra.
Qed.

(** Bins are ordered like the values they hold. *)
Lemma in_bin_mono (E : list Q) (j j' : nat) (x y : Q) :
  StronglySorted Qlt E → in_bin E j x → in_bin E j' y → (x <= y)%Q → j ≤ j'.
Proof.
  intros Hs (lo & hi & Hlo & Hhi & Hx) (lo' & hi' & Hlo' & Hhi' & Hy) Hxy.
  destruct (decide (j ≤ j')) as [|Hn]; [done|]. exfalso.
  assert (hi' <= lo)%Q.
  { eapply (strict_lookup_le E (S j') j); eauto. lia. }
  assert (lo' < hi')%Q.
  { eapply (strict_lookup_lt E j' (S j')); eauto. }
  destruct Hx as [[? ?]|[-> ?]]; [|lia].
  destruct Hy as [[? ?]|[? ?]]; lra.
Qed.

(** A value has at most one bin. *)
Lemma in_bin_inj (E : list Q) (j j' : nat) (x : Q) :
  StronglySorted Qlt E → in_bin E j x → in_bin E j' x → j = j'.
Proof.
  intros Hs H1 H2.
  assert (j ≤ j') by (eapply in_bin_mono; eauto; lra).
  assert (j' ≤ j) by (eapply in_bin_mono; eauto; lra).
  lia.
Qed.

(** ** pd.cut on strictly ascending edges *)

Lemma cut_bins_kept (E : list Q) :
  StronglySorted Qlt E →
  (if Nat.ltb (length (unique E)) (length E) && negb (Nat.eqb (length E) 2)
   then unique E else E) = E.
Proof.
  intros Hs. rewrite unique_fixed by by apply strict_Distinct.
  by rewrite Nat.ltb_irrefl.
Qed.

Lemma cut_strict (s : Series) (E : list Q) (L : list string) :
  is_numeric (dtype_of s) = true → StronglySorted Qlt E →
  NoDup L → S (length L) = length E →
  cut s E L true
  = Ok {| dtype_of := Category L; values := binned E L <$> values s |}.
Proof.
  intros Hnum Hs Hnd Hlen. unfold cut.
  rewrite Hnum, strict_monotonic, cut_bins_kept by done. cbn [negb].
  rewrite bool_decide_true by done. cbn [negb].
  rewrite (proj2 (Nat.eqb_eq _ _) Hlen). cbn [negb].
  by rewrite <- list_fmap_compose.
Qed.

Lemma cut_strict_inv (s c : Series) (E : list Q) (L : list string) :
  StronglySorted Qlt E → cut s E L true = Ok c →
  is_numeric (dtype_of s) = true ∧ NoDup L ∧ S (length L) = length E
  ∧ c = {| dtype_of := Category L; values := binned E L <$> values s |}.
Proof.
  intros Hs H. unfold cut in H.
  destruct (is_numeric (dtype_of s)) eqn:Hnum; [|discriminate].
  rewrite strict_monotonic, cut_bins_kept in H by done. cbn [negb] in H.
  destruct (bool_decide (NoDup L)) eqn:Hnd; [|discriminate].
  apply bool_decide_eq_true in Hnd. cbn [negb] in H.
  destruct (Nat.eqb_spec (S (length L)) (length E)) as [Hlen|]; [|discriminate].
  cbn [negb] in H. injection H as <-.
  by rewrite <- list_fmap_compose.
Qed.

(** ** Reading and writing a column *)

Lemma getitem_Ok df col s :
  getitem df col = Ok s →
  dtypes df !! col = Some (dtype_of s) ∧ values s = column df col.
Proof.
  unfold getitem. destruct (dtypes df !! col); [|discriminate].
  intros H. injection H as <-. done.
Qed.

Lemma zip_insert_same (col : string) (rs : list (gmap string cell)) (vs : list cell) :
  length vs = length rs →
  at_col col <$> zip_with (λ r v, <[col := v]> r) rs vs = vs.
Proof.
  revert vs. induction rs as [|r rs IH]; intros [|v vs] Hlen; try done.
  simpl in *. unfold at_col at 1. rewrite lookup_insert_eq. simpl.
  f_equal. apply IH. lia.
Qed.

Lemma zip_insert_other (col c : string) (rs : list (gmap string cell)) (vs : list cell) :
  c ≠ col → length vs = length rs →
  at_col c <$> zip_with (λ r v, <[col := v]> r) rs vs = at_col c <$> rs.
Proof.
  intros Hne. revert vs. induction rs as [|r rs IH]; intros [|v vs] Hlen; try done.
  simpl in *. unfold at_col at 1 3. rewrite lookup_insert_ne by done.
  f_equal. apply IH. lia.
Qed.

Lemma setitem_Ok df col s :
  length (values s) = length (rows df) →
  ∃ df', setitem df col s = Ok df'
         ∧ dtypes df' = <[col := dtype_of s]> (dtypes df)
         ∧ rows df' = zip_with (λ r v, <[col := v]> r) (rows df) (values s)
         ∧ column df' col = values s.
Proof.
  intros Hlen. unfold setitem. rewrite Hlen, Nat.eqb_refl.
  eexists. split; [reflexivity|]. split; [done|]. split; [done|].
  unfold column. simpl. by apply zip_insert_same.
Qed.

Lemma setitem_inv df col s df' :
  setitem df col s = Ok df' →
  length (values s) = length (rows df)
  ∧ dtypes df' = <[col := dtype_of s]> (dtypes df)
  ∧ rows df' = zip_with (λ r v, <[col := v]> r) (rows df) (values s)
  ∧ column df' col = values s.
Proof.
  unfold setitem.
  destruct (Nat.eqb_spec (length (values s)) (length (rows df))) as [Hlen|];
    [|discriminate].
  intros H. injection H as <-. split; [done|]. split; [done|]. split; [done|].
  unfold column. simpl. by apply zip_insert_same.
Qed.

(** ** What [catigorize_col] computes *)

Lemma catigorize_col_inv df col lbls df' :
  catigorize_col df col lbls = Ok df' →
  ∃ s qs,
    getitem df col = Ok s ∧ is_numeric (dtype_of s) = true
    ∧ quartile_edges df col = Ok qs
    ∧ NoDup (take (length (bin_edges qs) - 1) lbls)
    ∧ S (length (take (length (bin_edges qs) - 1) lbls)) = length (bin_edges qs)
    ∧ dtypes df'
      = <[col := Category (take (length (bin_edges qs) - 1) lbls)]> (dtypes df)
    ∧ rows df'
      = zip_with (λ r v, <[col := v]> r) (rows df)
          (binned (bin_edges qs) (take (length (bin_edges qs) - 1) lbls)
             <$> column df col)
    ∧ column df' col
      = binned (bin_edges qs) (take (length (bin_edges qs) - 1) lbls)
          <$> column df col.
Proof.
  unfold catigorize_col. intros H.
  inv_bind H. rename a into qs, Ha into Hqs.
  inv_bind H. rename a into s, Ha into Hs.
  inv_bind H. rename a into c, Ha into Hc.
  fold (bin_edges qs) in Hc.
  apply cut_strict_inv in Hc as (Hnum & Hnd & Hlen & ->);
    [|apply bin_edges_strict].
  apply setitem_inv in H as (_ & Hd & Hr & Hcol). simpl in *.
  destruct (getitem_Ok _ _ _ Hs) as [_ Hv]. rewrite Hv in *.
  exists s, qs. done.
Qed.

Lemma catigorize_col_Ok df col lbls s qs :
  getitem df col = Ok s → is_numeric (dtype_of s) = true →
  quartile_edges df col = Ok qs → qs ≠ [] →
  NoDup (take (length (bin_edges qs) - 1) lbls) →
  length (bin_edges qs) - 1 ≤ length lbls →
  ∃ df', catigorize_col df col lbls = Ok df'.
Proof.
  intros Hs Hnum Hqs Hne Hnd Hlen. unfold catigorize_col.
  rewrite Hqs. simpl. rewrite Hs. simpl. fold (bin_edges qs).
  rewrite cut_strict; [|done|apply bin_edges_strict|done|].
  - simpl.
    edestruct (setitem_Ok df col) as (df' & -> & _); [|by eexists].
    simpl. destruct (getitem_Ok _ _ _ Hs) as [_ ->].
    unfold column. by rewrite !length_fmap.
  - rewrite length_take.
    pose proof (bin_edges_nonempty qs Hne).
    destruct (bin_edges qs); [done|]. simpl in *. lia.
Qed.

Lemma NoDup_take_prefix (lbls : list string) (n : nat) :
  NoDup lbls → NoDup (take n lbls).
Proof. intros H. eapply sublist_NoDup; [done | apply sublist_take]. Qed.

Lemma quartile_edges_length df col qs :
  quartile_edges df col = Ok qs → length qs = 5.
Proof.
  unfold quartile_edges. intros H. repeat (inv_bind H).
  unfold numeric_edges in H.
  destruct (mapM cell_num _) as [qs'|] eqn:E; [|discriminate].
  injection H as <-. apply length_mapM in E. by rewrite <- E.
Qed.

(** A value in bin [j] is given label number [j]. *)
Lemma binned_label (E : list Q) (lbls : list string) (j : nat) (x : Q) :
  StronglySorted Qlt E →
  S (length (take (length E - 1) lbls)) = length E →
  in_bin E j x →
  ∃ lbl, lbls !! j = Some lbl ∧ j < length E - 1
         ∧ binned E (take (length E - 1) lbls) (Num x) = Str lbl.
Proof.
  intros Hs Hlen Hin. unfold binned. rewrite (bin_id_spec E j x) by done.
  destruct Hin as (lo & hi & Hlo & Hhi & _).
  apply lookup_lt_Some in Hhi.
  assert (j < length (take (length E - 1) lbls)) as Hj by lia.
  apply lookup_lt_is_Some_2 in Hj as [lbl Hl]. simpl. rewrite Hl.
  exists lbl. split; [|split; [lia | done]].
  rewrite lookup_take_lt in Hl by lia. done.
Qed.

(** ** C2: which bin a boundary score falls in *)

(** C2, as stated, fails: with scores 7, 7.5, 8, 8.5, 9 the median 8 is
    the interior edge number 2, and it is labelled [below_avg], the
    bin below it, not [average]. *)
Lemma upper_bin_rule_fails :
  ¬ upper_bin_rule (scores [7; 7.5; 8; 8.5; 9]%Q) "Vote_Average" labels.
Proof.
  intros H.
  destruct (catigorize_col (scores [7; 7.5; 8; 8.5; 9]%Q) "Vote_Average" labels)
    as [df'|] eqn:Hc; [|vm_compute in Hc; discriminate].
  destruct (quartile_edges (scores [7; 7.5; 8; 8.5; 9]%Q) "Vote_Average")
    as [qs|] eqn:Hq; [|vm_compute in Hq; discriminate].
  assert (column df' "Vote_Average" !! 2 = Some (Str "average")) as Habs.
  { apply (H df' qs 2 2 8%Q (160 # 20)%Q "average" Hc Hq eq_refl);
      vm_compute in Hq; injection Hq as <-;
      [reflexivity | lia | vm_compute; lia | reflexivity | reflexivity]. }
  vm_compute in Hc. injection Hc as <-. vm_compute in Habs. discriminate.
Qed.

(** C2 (amended): bins are the intervals [(lo, hi]] between consecutive
    deduplicated edges, the lowest bin also holding its left edge, which
    is the global minimum of the column; a score in bin [j] gets label
    [j], so a score equal to an edge above the lowest one gets the label
    of the bin below that edge. *)
Theorem cut_right_closed df col lbls df' qs :
  catigorize_col df col lbls = Ok df' →
  quartile_edges df col = Ok qs →
  StronglySorted Qlt (bin_edges qs)
  ∧ (∃ e0, bin_edges qs !! 0 = Some e0
           ∧ (∀ (i : nat) y, column df col !! i = Some (Num y) → (e0 <= y)%Q)
           ∧ (∃ (i : nat) y, column df col !! i = Some (Num y) ∧ (y == e0)%Q))
  ∧ (∀ (i j : nat) x,
       column df col !! i = Some (Num x) → in_bin (bin_edges qs) j x →
       ∃ lbl, lbls !! j = Some lbl ∧ column df' col !! i = Some (Str lbl))
  ∧ (∀ (i j : nat) x e,
       column df col !! i = Some (Num x) →
       bin_edges qs !! S j = Some e → (x == e)%Q →
       ∃ lbl, lbls !! j = Some lbl ∧ column df' col !! i = Some (Str lbl)).
Proof.
  intros Hcat Hqs.
  destruct (catigorize_col_inv _ _ _ _ Hcat)
    as (s & qs' & Hs & Hnum & Hqs' & Hnd & Hlen & Hd & Hr & Hcol).
  rewrite Hqs in Hqs'. injection Hqs' as <-.
  destruct (getitem_Ok _ _ _ Hs) as [_ Hv].
  destruct (quartile_edges_inv _ _ _ Hqs) as (s' & Hs' & _ & Hne).
  rewrite Hs in Hs'. injection Hs' as <-.
  destruct (quartile_edges_spec _ _ _ Hs Hnum Hne)
    as (mn & q1 & q2 & q3 & mx & Hqs2 & Hmn & Hmx & Hb & H1 & H2 & H3).
  rewrite Hqs in Hqs2. injection Hqs2 as ->.
  pose proof (bin_edges_strict [mn; q1; q2; q3; mx]) as Hstrict.
  set (E := bin_edges [mn; q1; q2; q3; mx]) in *.
  assert (∀ (i j : nat) x,
            column df col !! i = Some (Num x) → in_bin E j x →
            ∃ lbl, lbls !! j = Some lbl ∧ column df' col !! i = Some (Str lbl))
    as Hbin.
  { intros i j x Hi Hin.
    destruct (binned_label E lbls j x Hstrict Hlen Hin) as (lbl & Hl & _ & Hb').
    exists lbl. split; [done|].
    rewrite Hcol, list_lookup_fmap, Hi. simpl. by rewrite Hb'. }
  split; [done|]. split; [|split; [done|]].
  - destruct (bin_edges_first [mn; q1; q2; q3; mx] mn) as (e0 & He0 & Heq).
    { apply list_elem_of_here. }
    { intros y Hy. rewrite !elem_of_cons, elem_of_nil in Hy.
      destruct Hy as [->|[->|[->|[->|[->|[]]]]]]; lra. }
    exists e0. split; [done|]. split.
    + intros i y Hi. rewrite <- Hv in Hi.
      apply list_elem_of_lookup_2, Hb in Hi. lra.
    + rewrite <- Hv. apply list_elem_of_lookup_1 in Hmn as [i Hi].
      exists i, mn. split; [done|]. lra.
  - intros i j x e Hi He Hxe.
    destruct (lookup_lt_is_Some_2 E j) as [lo Hlo].
    { apply lookup_lt_Some in He. lia. }
    apply (Hbin i j x Hi). exists lo, e. split; [done|]. split; [done|].
    left. pose proof (strict_lookup_lt E j (S j) lo e Hstrict Hlo He).
    split; [|lra]. assert (lo < e)%Q by (apply H; lia). lra.
Qed.

(** The amended C2 at the sample of five scores. *)
Lemma cut_right_closed_witness :
  ∃ df' qs,
    catigorize_col (scores [7; 7.5; 8; 8.5; 9]%Q) "Vote_Average" labels = Ok df'
    ∧ quartile_edges (scores [7; 7.5; 8; 8.5; 9]%Q) "Vote_Average" = Ok qs
    ∧ ∀ (i j : nat) x e,
        column (scores [7; 7.5; 8; 8.5; 9]%Q) "Vote_Average" !! i = Some (Num x) →
        bin_edges qs !! S j = Some e → (x == e)%Q →
        ∃ lbl, labels !! j = Some lbl
               ∧ column df' "Vote_Average" !! i = Some (Str lbl).
Proof.
  eexists _, _. split; [vm_compute; reflexivity|]. split; [vm_compute; reflexivity|].
  eapply (cut_right_closed (scores [7; 7.5; 8; 8.5; 9]%Q) "Vote_Average" labels);
    vm_compute; reflexivity.
Defined.

(** ** C3: totality and monotonicity *)

(** C3, as stated, fails on a constant column: the call returns, and
    the three scores are left without a label. *)
Lemma total_labelling_fails :
  ¬ total_labelling (scores [5; 5; 5]%Q) "Vote_Average" labels.
Proof.
  intros (df' & Hc & Htot).
  destruct (Htot 0 5%Q eq_refl) as (lbl & _ & Hl).
  vm_compute in Hc. injection Hc as <-. vm_compute in Hl. discriminate.
Qed.

(** Two distinct scores put at least two edges between minimum and
    maximum. *)
Lemma two_values_two_edges (qs : list Q) (mn mx : Q) :
  mn ∈ qs → mx ∈ qs → (mn < mx)%Q → 2 ≤ length (bin_edges qs).
Proof.
  intros Hmn Hmx Hlt.
  destruct (bin_edges_covers _ _ Hmn) as (a & Ha & Hea).
  destruct (bin_edges_covers _ _ Hmx) as (b & Hb & Heb).
  apply list_elem_of_lookup_1 in Ha as [i Hi].
  apply list_elem_of_lookup_1 in Hb as [j Hj].
  destruct (decide (i = j)) as [->|Hne].
  - rewrite Hi in Hj. injection Hj as ->. lra.
  - apply lookup_lt_Some in Hi. apply lookup_lt_Some in Hj. lia.
Qed.

(** C3 (amended): when the column is numeric and holds at least two
    distinct scores, and four or more distinct labels are supplied,
    [catigorize_col] returns; every score gets exactly one label, one of
    the first four; and a higher score never gets a lower label. *)
Theorem categorization_total_monotone df col lbls s :
  getitem df col = Ok s → is_numeric (dtype_of s) = true →
  NoDup lbls → 4 ≤ length lbls →
  (∃ (i j : nat) x y, column df col !! i = Some (Num x)
                      ∧ column df col !! j = Some (Num y) ∧ ¬ (x == y)%Q) →
  ∃ df',
    catigorize_col df col lbls = Ok df'
    ∧ (∀ (i : nat) x, column df col !! i = Some (Num x) →
         ∃ (k : nat) lbl,
           k < 4 ∧ lbls !! k = Some lbl
           ∧ column df' col !! i = Some (Str lbl)
           ∧ ∀ (k' : nat) lbl', lbls !! k' = Some lbl' →
               column df' col !! i = Some (Str lbl') → k' = k)
    ∧ (∀ (i i' k k' : nat) x y l l',
         column df col !! i = Some (Num x) →
         column df col !! i' = Some (Num y) → (x <= y)%Q →
         lbls !! k = Some l → lbls !! k' = Some l' →
         column df' col !! i = Some (Str l) →
         column df' col !! i' = Some (Str l') → k ≤ k').
Proof.
  intros Hs Hnum Hnd Hlen4 (i0 & j0 & x0 & y0 & Hx0 & Hy0 & Hxy).
  destruct (getitem_Ok _ _ _ Hs) as [_ Hv].
  assert (notna_values (values s) ≠ []) as Hne.
  { intros Hnil. rewrite <- Hv in Hx0. apply list_elem_of_lookup_2 in Hx0.
    apply notna_values_elem in Hx0. rewrite Hnil in Hx0.
    by apply elem_of_nil in Hx0. }
  destruct (quartile_edges_spec _ _ _ Hs Hnum Hne)
    as (mn & q1 & q2 & q3 & mx & Hqs & Hmn & Hmx & Hb & H1 & H2 & H3).
  set (qs := [mn; q1; q2; q3; mx]) in *.
  pose proof (bin_edges_strict qs) as Hstrict.
  pose proof (bin_edges_length qs) as Hle5. simpl in Hle5.
  assert (∀ y, y ∈ qs → (mn <= y <= mx)%Q) as Hqb.
  { intros y Hy. unfold qs in Hy. rewrite !elem_of_cons, elem_of_nil in Hy.
    assert (mn <= mx)%Q by (apply (Hb mn Hmn)).
    destruct Hy as [->|[->|[->|[->|[->|[]]]]]]; lra. }
  assert (mn < mx)%Q as Hlt.
  { rewrite <- Hv in Hx0, Hy0.
    apply list_elem_of_lookup_2, Hb in Hx0.
    apply list_elem_of_lookup_2, Hb in Hy0.
    destruct (Qlt_le_dec mn mx); [done|]. exfalso. apply Hxy. lra. }
  assert (mn ∈ qs) as Hmn_in by apply list_elem_of_here.
  assert (mx ∈ qs) as Hmx_in by (unfold qs; rewrite !elem_of_cons; tauto).
  pose proof (two_values_two_edges qs mn mx Hmn_in Hmx_in Hlt) as Hlen2.
  destruct (bin_edges_first qs mn Hmn_in) as (e0 & He0 & Heq0).
  { intros y Hy. by apply Hqb. }
  destruct (bin_edges_last qs mx Hmx_in) as (el & Hel & Heql).
  { intros y Hy. by apply Hqb. }
  destruct (catigorize_col_Ok df col lbls s qs) as [df' Hcat]; try done.
  { by apply NoDup_take_prefix. }
  { lia. }
  destruct (catigorize_col_inv _ _ _ _ Hcat)
    as (s' & qs' & _ & _ & Hqs' & _ & HlenL & _ & _ & Hcol).
  rewrite Hqs in Hqs'. injection Hqs' as <-. fold qs in HlenL, Hcol.
  assert (∀ (i : nat) x, column df col !! i = Some (Num x) →
            ∃ j lbl, in_bin (bin_edges qs) j x ∧ j < 4 ∧ lbls !! j = Some lbl
                     ∧ column df' col !! i = Some (Str lbl)) as Htot.
  { intros i x Hi.
    assert (mn <= x <= mx)%Q as Hx.
    { apply Hb. rewrite Hv. by eapply list_elem_of_lookup_2. }
    destruct (bin_exists (bin_edges qs) x e0 el) as [j Hin]; try done; try lra.
    destruct (binned_label _ lbls j x Hstrict HlenL Hin) as (lbl & Hl & Hj & Hb').
    exists j, lbl. split; [done|]. split; [lia|]. split; [done|].
    rewrite Hcol, list_lookup_fmap, Hi. simpl. by rewrite Hb'. }
  exists df'. split; [done|]. split.
  - intros i x Hi. destruct (Htot i x Hi) as (j & lbl & _ & Hj & Hl & Hc).
    exists j, lbl. split; [done|]. split; [done|]. split; [done|].
    intros k' lbl' Hl' Hc'. rewrite Hc in Hc'. injection Hc' as <-.
    by eapply NoDup_lookup.
  - intros i i' k k' x y l l' Hi Hi' Hxy' Hk Hk' Hc Hc'.
    destruct (Htot i x Hi) as (j & lbl & Hin & _ & Hl & Hcj).
    destruct (Htot i' y Hi') as (j' & lbl' & Hin' & _ & Hl' & Hcj').
    rewrite Hc in Hcj. injection Hcj as <-.
    rewrite Hc' in Hcj'. injection Hcj' as <-.
    assert (k = j) as -> by (by eapply NoDup_lookup).
    assert (k' = j') as -> by (by eapply NoDup_lookup).
    by eapply in_bin_mono.
Qed.

(** The amended C3 at five scores and the labels of the script. *)
Lemma categorization_total_monotone_witness :
  ∃ df',
    catigorize_col (scores [7; 7.5; 8; 8.5; 9]%Q) "Vote_Average" labels = Ok df'
    ∧ (∀ (i : nat) x,
         column (scores [7; 7.5; 8; 8.5; 9]%Q) "Vote_Average" !! i = Some (Num x) →
         ∃ (k : nat) lbl,
           k < 4 ∧ labels !! k = Some lbl
           ∧ column df' "Vote_Average" !! i = Some (Str lbl)
           ∧ ∀ (k' : nat) lbl', labels !! k' = Some lbl' →
               column df' "Vote_Average" !! i = Some (Str lbl') → k' = k)
    ∧ (∀ (i i' k k' : nat) x y l l',
         column (scores [7; 7.5; 8; 8.5; 9]%Q) "Vote_Average" !! i = Some (Num x) →
         column (scores [7; 7.5; 8; 8.5; 9]%Q) "Vote_Average" !! i' = Some (Num y) →
         (x <= y)%Q →
         labels !! k = Some l → labels !! k' = Some l' →
         column df' "Vote_Average" !! i = Some (Str l) →
         column df' "Vote_Average" !! i' = Some (Str l') → k ≤ k').
Proof.
  apply (categorization_total_monotone
           (scores [7; 7.5; 8; 8.5; 9]%Q) "Vote_Average" labels
           {| dtype_of := Float64;
              values := column (scores [7; 7.5; 8; 8.5; 9]%Q) "Vote_Average" |}).
  - reflexivity.
  - reflexivity.
  - apply (bool_decide_eq_true_1 (NoDup labels)). reflexivity.
  - simpl. lia.
  - exists 0, 1, 7%Q, 7.5%Q. split; [reflexivity|]. split; [reflexivity|].
    intros H. vm_compute in H. discriminate.
Defined.

(** ** C4: coinciding boundaries *)

(** A repeated value makes the deduplicated list strictly shorter. *)
Lemma unique_length_dup (qs : list Q) (i j : nat) (a b : Q) :
  i < j → qs !! i = Some a → qs !! j = Some b → (a == b)%Q →
  length (unique qs) < length qs.
Proof.
  revert i j. induction qs as [|x l IH]; intros i j Hij Hi Hj Hab.
  - by rewrite lookup_nil in Hi.
  - destruct j as [|j]; [lia|]. simpl in Hj. simpl.
    assert (length (unique l) ≤ length l) as Hul.
    { clear. induction l as [|y l IHl]; simpl; [done|].
      pose proof (length_filter (λ z, Qeq_bool y z = false) (unique l)). lia. }
    pose proof (length_filter (λ y, Qeq_bool x y = false) (unique l)) as Hf.
    destruct i as [|i]; simpl in Hi.
    + injection Hi as ->.
      destruct (unique_covers b l) as (z & Hz & Hzb);
        [by eapply list_elem_of_lookup_2|].
      pose proof (length_filter_lt (λ y, Qeq_bool a y = false) (unique l) z Hz)
        as Hlt.
      assert (length (filter (λ y, Qeq_bool a y = false) (unique l))
              < length (unique l)); [|lia].
      apply Hlt. intros Hneq. apply Qeq_bool_false in Hneq. apply Hneq.
      by rewrite Hab, Hzb.
    + assert (length (unique l) < length l); [|lia].
      apply (IH i j); [lia | done | done | done].
Qed.

(** C4: when two of the five boundary values coincide, categorization
    still returns; the bins run between the distinct boundary values in
    ascending order, there are fewer than four of them, and they are
    labelled by the first labels of the list, the highest ones being
    dropped. *)
Theorem duplicate_edges_collapse df col lbls qs :
  quartile_edges df col = Ok qs →
  NoDup lbls → 4 ≤ length lbls →
  (∃ (i j : nat) a b, i < j ∧ qs !! i = Some a ∧ qs !! j = Some b ∧ (a == b)%Q) →
  ∃ df',
    catigorize_col df col lbls = Ok df'
    ∧ StronglySorted Qlt (bin_edges qs)
    ∧ (∀ q, (∃ e, e ∈ bin_edges qs ∧ (e == q)%Q) ↔ (∃ b, b ∈ qs ∧ (b == q)%Q))
    ∧ length (bin_edges qs) - 1 < 4
    ∧ dtypes df' !! col
      = Some (Category (take (length (bin_edges qs) - 1) lbls))
    ∧ (∀ (i : nat) c, column df' col !! i = Some c →
         c = NaN ∨ ∃ (k : nat) lbl, k < length (bin_edges qs) - 1
                                    ∧ lbls !! k = Some lbl ∧ c = Str lbl).
Proof.
  intros Hqs Hnd Hlen4 (i & j & a & b & Hij & Hi & Hj & Hab).
  destruct (quartile_edges_inv _ _ _ Hqs) as (s & Hs & Hnum & Hne).
  pose proof (quartile_edges_length _ _ _ Hqs) as Hlen5.
  pose proof (unique_length_dup qs i j a b Hij Hi Hj Hab) as Hdup.
  assert (length (bin_edges qs) < 5) as Hlt5.
  { unfold bin_edges, set_of. rewrite sorted_length. lia. }
  assert (qs ≠ []) as Hqne by (intros ->; discriminate).
  destruct (catigorize_col_Ok df col lbls s qs) as [df' Hcat]; try done.
  { by apply NoDup_take_prefix. }
  { lia. }
  destruct (catigorize_col_inv _ _ _ _ Hcat)
    as (s' & qs' & _ & _ & Hqs' & _ & HlenL & Hd & _ & Hcol).
  rewrite Hqs in Hqs'. injection Hqs' as <-.
  exists df'. split; [done|]. split; [apply bin_edges_strict|].
  split; [|split; [lia|split]].
  - intros q. split.
    + intros (e & He & Heq). exists e. split; [by apply bin_edges_elem | done].
    + intros (b' & Hb' & Heq).
      destruct (bin_edges_covers _ _ Hb') as (e & He & Hee).
      exists e. split; [done|]. by rewrite Hee.
  - rewrite Hd. apply lookup_insert_eq.
  - intros r c Hc. rewrite Hcol, list_lookup_fmap in Hc.
    destruct (column df col !! r) as [c0|]; [|discriminate].
    simpl in Hc. injection Hc as <-. unfold binned, take_label.
    destruct (bin_id _ _ _) as [|k]; [by left|].
    destruct (take _ lbls !! k) as [lbl|] eqn:Hk; [|by left].
    right. exists k, lbl. apply lookup_take_Some in Hk as [Hk Hlt]. done.
Qed.

(** C4 at a skewed column: minimum, first quartile and median are all 1. *)
Lemma duplicate_edges_collapse_witness :
  ∃ qs df',
    quartile_edges (scores [1; 1; 1; 1; 2; 3]%Q) "Vote_Average" = Ok qs
    ∧ catigorize_col (scores [1; 1; 1; 1; 2; 3]%Q) "Vote_Average" labels = Ok df'
    ∧ length (bin_edges qs) - 1 < 4
    ∧ dtypes df' !! "Vote_Average"
      = Some (Category (take (length (bin_edges qs) - 1) labels)).
Proof.
  assert (quartile_edges (scores [1; 1; 1; 1; 2; 3]%Q) "Vote_Average"
          = Ok [1; 4 # 4; 2 # 2; 7 # 4; 3]%Q) as Hqs by (vm_compute; reflexivity).
  destruct (duplicate_edges_collapse
              (scores [1; 1; 1; 1; 2; 3]%Q) "Vote_Average" labels _ Hqs)
    as (df' & Hcat & _ & _ & Hlt & Hd & _).
  - apply (bool_decide_eq_true_1 (NoDup labels)). reflexivity.
  - simpl. lia.
  - exists 0, 1, 1%Q, (4 # 4)%Q. split; [lia|]. split; [reflexivity|].
    split; reflexivity.
  - exists [1; 4 # 4; 2 # 2; 7 # 4; 3]%Q, df'.
    split; [exact Hqs|]. split; [exact Hcat|]. split; [exact Hlt | exact Hd].
Defined.

(** ** C9: a second application *)

(** C9: once a column has been categorized, [catigorize_col] on it stops
    with a [KeyError]: the summary of a categorical column has no
    ["min"]. *)
Theorem recategorize_rejected df col lbls lbls' df' :
  catigorize_col df col lbls = Ok df' →
  catigorize_col df' col lbls' = Err (KeyError "min").
Proof.
  intros Hcat.
  destruct (catigorize_col_inv _ _ _ _ Hcat)
    as (s & qs & _ & _ & _ & _ & _ & Hd & _ & _).
  unfold catigorize_col, quartile_edges, getitem.
  rewrite Hd, lookup_insert_eq. simpl.
  by rewrite stat_min_KeyError.
Qed.

(** C9 at the five-score sample. *)
Lemma recategorize_rejected_witness :
  ∃ df',
    catigorize_col (scores [7; 7.5; 8; 8.5; 9]%Q) "Vote_Average" labels = Ok df'
    ∧ catigorize_col df' "Vote_Average" labels = Err (KeyError "min").
Proof.
  eexists. split; [vm_compute; reflexivity|].
  apply (recategorize_rejected
           (scores [7; 7.5; 8; 8.5; 9]%Q) "Vote_Average" labels labels).
  vm_compute. reflexivity.
Defined.

(** ** C10: a constant column *)

(** C10, as stated, fails: on three equal scores the call returns. *)
Lemma categorization_fails_refuted :
  ¬ categorization_fails (scores [5; 5; 5]%Q) "Vote_Average" labels.
Proof. intros [e He]. vm_compute in He. discriminate. Qed.

(** C10 (amended): when all scores of a numeric column are equal, the
    five boundary values collapse to one edge, there is no bin and no
    label, [catigorize_col] returns without error, and every cell of the
    column is missing afterwards. *)
Theorem constant_column_unlabelled df col lbls s v :
  getitem df col = Ok s → is_numeric (dtype_of s) = true →
  (∃ (i : nat) x, column df col !! i = Some (Num x)) →
  (∀ (i : nat) x, column df col !! i = Some (Num x) → (x == v)%Q) →
  ∃ df' qs,
    catigorize_col df col lbls = Ok df'
    ∧ quartile_edges df col = Ok qs
    ∧ length (bin_edges qs) = 1
    ∧ dtypes df' !! col = Some (Category [])
    ∧ ∀ (i : nat), i < length (rows df) → column df' col !! i = Some NaN.
Proof.
  intros Hs Hnum (i0 & x0 & Hx0) Hconst.
  destruct (getitem_Ok _ _ _ Hs) as [_ Hv].
  assert (notna_values (values s) ≠ []) as Hne.
  { intros Hnil. rewrite <- Hv in Hx0. apply list_elem_of_lookup_2 in Hx0.
    apply notna_values_elem in Hx0. rewrite Hnil in Hx0.
    by apply elem_of_nil in Hx0. }
  destruct (quartile_edges_spec _ _ _ Hs Hnum Hne)
    as (mn & q1 & q2 & q3 & mx & Hqs & Hmn & Hmx & Hb & H1 & H2 & H3).
  set (qs := [mn; q1; q2; q3; mx]) in *.
  assert (mn == v)%Q as Hmnv.
  { rewrite Hv in Hmn. apply list_elem_of_lookup_1 in Hmn as [i Hi]. eauto. }
  assert (mx == v)%Q as Hmxv.
  { rewrite Hv in Hmx. apply list_elem_of_lookup_1 in Hmx as [i Hi]. eauto. }
  assert (∀ y, y ∈ bin_edges qs → (y == v)%Q) as Hall.
  { intros y Hy. apply bin_edges_elem in Hy. unfold qs in Hy.
    rewrite !elem_of_cons, elem_of_nil in Hy.
    destruct Hy as [->|[->|[->|[->|[->|[]]]]]]; lra. }
  pose proof (bin_edges_strict qs) as Hstrict.
  assert (length (bin_edges qs) = 1) as Hlen1.
  { pose proof (bin_edges_nonempty qs) as Hn.
    destruct (bin_edges qs) as [|a [|b E]] eqn:EE; [by destruct Hn | done |].
    exfalso.
    assert (a < b)%Q.
    { eapply (strict_lookup_lt (a :: b :: E) 0 1); eauto. }
    assert (a == v)%Q by (apply Hall; rewrite !elem_of_cons; tauto).
    assert (b == v)%Q by (apply Hall; rewrite !elem_of_cons; tauto).
    lra. }
  destruct (catigorize_col_Ok df col lbls s qs) as [df' Hcat]; try done.
  { rewrite Hlen1. simpl. rewrite take_0. constructor. }
  { lia. }
  destruct (catigorize_col_inv _ _ _ _ Hcat)
    as (s' & qs' & _ & _ & Hqs' & _ & _ & Hd & _ & Hcol).
  rewrite Hqs in Hqs'. injection Hqs' as <-. fold qs in Hd, Hcol.
  rewrite Hlen1 in Hd, Hcol. simpl in Hd, Hcol. rewrite take_0 in Hd, Hcol.
  exists df', qs. split; [done|]. split; [done|]. split; [done|].
  split; [rewrite Hd; apply lookup_insert_eq|].
  intros i Hi. rewrite Hcol, list_lookup_fmap.
  destruct (lookup_lt_is_Some_2 (column df col) i) as [c Hc].
  { unfold column. by rewrite length_fmap. }
  rewrite Hc. simpl. f_equal. unfold binned, take_label.
  destruct (bin_id _ _ _); done.
Qed.

(** The amended C10 at three equal scores. *)
Lemma constant_column_unlabelled_witness :
  ∃ df' qs,
    catigorize_col (scores [5; 5; 5]%Q) "Vote_Average" labels = Ok df'
    ∧ quartile_edges (scores [5; 5; 5]%Q) "Vote_Average" = Ok qs
    ∧ length (bin_edges qs) = 1
    ∧ dtypes df' !! "Vote_Average" = Some (Category [])
    ∧ ∀ (i : nat), i < 3 → column df' "Vote_Average" !! i = Some NaN.
Proof.
  apply (constant_column_unlabelled
           (scores [5; 5; 5]%Q) "Vote_Average" labels
           {| dtype_of := Float64;
              values := column (scores [5; 5; 5]%Q) "Vote_Average" |} 5%Q).
  - reflexivity.
  - reflexivity.
  - exists 0, 5%Q. reflexivity.
  - intros i x Hi. destruct i as [|[|[|i]]]; simpl in Hi; try discriminate;
      injection Hi as <-; reflexivity.
Defined.

(** ** Splitting and exploding *)

Lemma split_scan_nonempty sep skip cur s : split_scan sep skip cur s ≠ [].
Proof.
  revert skip cur. induction s as [|c s IH]; intros skip cur;
    cbn [split_scan]; [done|].
  destruct skip; [|apply IH].
  destruct (String.prefix sep (String c s)); [done | apply IH].
Qed.

(** A string always splits into at least one piece. *)
Lemma split_nonempty sep s : split sep s ≠ [].
Proof. apply split_scan_nonempty. Qed.

Lemma bind_length {A B} (f : A → list B) (l : list A) :
  length (l ≫= f) = sum_list_with (length ∘ f) l.
Proof.
  induction l as [|x l IH]; [done|].
  rewrite bind_cons, length_app, IH. done.
Qed.

(** Element [j] of the group of record [i] sits after the groups of all
    earlier records. *)
Lemma bind_lookup_offset {A B} (f : A → list B) (l : list A)
    (i j : nat) (x : A) (y : B) :
  l !! i = Some x → f x !! j = Some y →
  (l ≫= f) !! (sum_list_with (length ∘ f) (take i l) + j) = Some y.
Proof.
  revert i. induction l as [|a l IH]; intros i Hi Hj.
  - by rewrite lookup_nil in Hi.
  - rewrite bind_cons. destruct i as [|i]; simpl in Hi.
    + injection Hi as ->. simpl. rewrite lookup_app_l; [done|].
      by eapply lookup_lt_Some.
    + simpl. rewrite lookup_app_r by lia.
      replace (length (f a) + sum_list_with (length ∘ f) (take i l) + j
               - length (f a))
        with (sum_list_with (length ∘ f) (take i l) + j) by lia.
      by apply IH.
Qed.

Lemma zip_insert_fmap (col : string) (f : cell → cell)
    (rs : list (gmap string cell)) :
  zip_with (λ r v, <[col := v]> r) rs (f <$> (at_col col <$> rs))
  = (λ r, <[col := f (at_col col r)]> r) <$> rs.
Proof.
  induction rs as [|r rs IH]; [done|].
  rewrite !fmap_cons. cbn [zip_with]. f_equal. exact IH.
Qed.

Lemma split_genre_Ok df d :
  dtypes df !! "Genre" = Some d → is_numeric d = false →
  ∃ df1, split_genre df = Ok df1
         ∧ dtypes df1 = <["Genre" := Object]> (dtypes df)
         ∧ rows df1
           = (λ r, <["Genre" := split_cell (at_col "Genre" r)]> r) <$> rows df.
Proof.
  intros Hd Hnum. unfold split_genre, getitem, str_split. rewrite Hd. simpl.
  rewrite Hnum. simpl. unfold setitem. simpl.
  rewrite !length_fmap, Nat.eqb_refl.
  eexists. split; [reflexivity|]. split; [done|]. simpl.
  apply (zip_insert_fmap "Genre" split_cell).
Qed.

Lemma split_genre_inv df df1 :
  split_genre df = Ok df1 →
  ∃ d, dtypes df !! "Genre" = Some d ∧ is_numeric d = false
       ∧ dtypes df1 = <["Genre" := Object]> (dtypes df)
       ∧ rows df1
         = (λ r, <["Genre" := split_cell (at_col "Genre" r)]> r) <$> rows df.
Proof.
  intros H. unfold split_genre, getitem in H.
  destruct (dtypes df !! "Genre") as [d|] eqn:Hd; [|discriminate].
  simpl in H. unfold str_split in H. simpl in H.
  destruct (is_numeric d) eqn:Hnum; [discriminate|].
  destruct (split_genre_Ok df d Hd Hnum) as (df1' & H' & Hdt & Hr).
  unfold split_genre, getitem, str_split in H'. rewrite Hd in H'. simpl in H'.
  rewrite Hnum in H'. rewrite H' in H. injection H as <-. eauto.
Qed.

Lemma explode_Ok df col :
  is_Some (dtypes df !! col) →
  explode df col
  = Ok {| dtypes := dtypes df; rows := rows df ≫= explode_row col |}.
Proof. intros [d Hd]. unfold explode. by rewrite Hd. Qed.

(** ** Splitting is the inverse of joining *)

Lemma append_cons (c : Ascii.ascii) (s t : string) :
  String c s +:+ t = String c (s +:+ t).
Proof. reflexivity. Qed.

Lemma append_nil_r (s : string) : s +:+ "" = s.
Proof. induction s as [|c s IH]; [done|]. by rewrite append_cons, IH. Qed.

Lemma append_assoc (s t u : string) : (s +:+ t) +:+ u = s +:+ (t +:+ u).
Proof. induction s as [|c s IH]; [done|]. by rewrite !append_cons, IH. Qed.

Lemma length_append (s t : string) :
  String.length (s +:+ t) = String.length s + String.length t.
Proof.
  induction s as [|c s IH]; [done|]. rewrite append_cons. cbn. by rewrite IH.
Qed.

Lemma prefix_append (p s : string) :
  String.prefix p s = true → ∃ t, s = p +:+ t.
Proof.
  revert s. induction p as [|a p IH]; intros s H.
  - by exists s.
  - destruct s as [|b s]; [discriminate|]. cbn in H.
    destruct (Ascii.ascii_dec a b) as [->|]; [|discriminate].
    destruct (IH s H) as [t ->]. exists t. by rewrite append_cons.
Qed.

Lemma join_cons (sep x : string) (l : list string) :
  l ≠ [] → join sep (x :: l) = x +:+ sep +:+ join sep l.
Proof. by destruct l. Qed.

(** Jumping over the rest of a separator. *)
Lemma split_scan_skip (sep u t cur : string) :
  split_scan sep (String.length u) cur (u +:+ t) = split_scan sep 0 cur t.
Proof.
  induction u as [|c u IH]; [done|]. rewrite append_cons. cbn. apply IH.
Qed.

Lemma split_scan_join (sep : string) (n : nat) (s cur : string) :
  sep ≠ "" → String.length s ≤ n →
  join sep (split_scan sep 0 cur s) = cur +:+ s.
Proof.
  intros Hsep. revert s cur. induction n as [|n IH]; intros s cur Hlen.
  - destruct s; [|cbn in Hlen; lia]. cbn. by rewrite append_nil_r.
  - destruct s as [|c s]; [cbn; by rewrite append_nil_r|].
    cbn [split_scan].
    destruct (String.prefix sep (String c s)) eqn:Hp.
    + apply prefix_append in Hp as [t Ht].
      destruct sep as [|a sep']; [done|]. rewrite append_cons in Ht.
      injection Ht as -> ->.
      replace (String.length (String a sep') - 1) with (String.length sep')
        by (cbn; lia).
      rewrite split_scan_skip.
      rewrite join_cons by apply split_scan_nonempty.
      rewrite (IH t "").
      * change ("" +:+ t) with t. by rewrite append_cons.
      * cbn in Hlen. rewrite length_append in Hlen. lia.
    + rewrite IH by (cbn in Hlen; lia).
      rewrite append_assoc. done.
Qed.

(** Joining the tags with the separator gives the genre string back. *)
Lemma join_split (sep s : string) : sep ≠ "" → join sep (split sep s) = s.
Proof.
  intros Hsep. unfold split.
  by rewrite (split_scan_join sep (String.length s)).
Qed.

(** The rows a record with a genre string turns into, through splitting
    and exploding. *)
Lemma explode_split_row (r : gmap string cell) (g : string) :
  r !! "Genre" = Some (Str g) →
  explode_row "Genre" (<["Genre" := split_cell (at_col "Genre" r)]> r)
  = (λ t, <["Genre" := Str t]> r) <$> genre_tags r.
Proof.
  intros Hg. unfold explode_row, genre_tags, at_col.
  rewrite lookup_insert_eq, Hg. simpl.
  pose proof (split_nonempty ", " g) as Hne.
  destruct (split ", " g) as [|t ts]; [done|].
  apply list_fmap_ext. intros _ t' _. apply insert_insert_eq.
Qed.

(** ** C1: the genre explosion *)

(** C1: on a table whose genre cells are strings, splitting and
    exploding the genre column succeeds; the result has as many rows as
    there are comma-space-separated tags in all records together; the
    rows of record [i] come after those of all earlier records, one per
    tag in tag order; each carries its tag as genre and agrees with the
    record on every other column. *)
Theorem explode_genre_rows df d :
  dtypes df !! "Genre" = Some d → is_numeric d = false →
  Forall (λ r, ∃ g, r !! "Genre" = Some (Str g)) (rows df) →
  ∃ df1 df2,
    split_genre df = Ok df1
    ∧ explode df1 "Genre" = Ok df2
    ∧ length (rows df2) = sum_list_with (length ∘ genre_tags) (rows df)
    ∧ ∀ (i j : nat) r t,
        rows df !! i = Some r → genre_tags r !! j = Some t →
        ∃ r',
          rows df2
            !! (sum_list_with (length ∘ genre_tags) (take i (rows df)) + j)
          = Some r'
          ∧ r' !! "Genre" = Some (Str t)
          ∧ ∀ c, c ≠ "Genre" → r' !! c = r !! c.
Proof.
  intros Hd Hnum Htext.
  destruct (split_genre_Ok df d Hd Hnum) as (df1 & Hsplit & Hdt & Hr).
  exists df1. eexists. split; [done|].
  split; [apply explode_Ok; rewrite Hdt, lookup_insert_eq; eauto|].
  simpl. rewrite Hr, list_fmap_bind.
  set (f := λ r : gmap string cell,
              (λ t, <["Genre" := Str t]> r) <$> genre_tags r).
  assert (rows df ≫= (explode_row "Genre"
            ∘ (λ r, <["Genre" := split_cell (at_col "Genre" r)]> r))
          = rows df ≫= f) as ->.
  { apply Forall_bind_ext. eapply Forall_impl; [exact Htext|].
    intros r [g Hg]. simpl. by eapply explode_split_row. }
  assert (∀ l : list (gmap string cell),
            sum_list_with (length ∘ f) l
            = sum_list_with (length ∘ genre_tags) l) as Hsum.
  { intros l. induction l as [|r l IH]; simpl; [done|].
    unfold f at 1. by rewrite length_fmap, IH. }
  split.
  - by rewrite bind_length, Hsum.
  - intros i j r t Hi Hj.
    exists (<["Genre" := Str t]> r).
    split; [|split].
    + rewrite <- Hsum. apply (bind_lookup_offset f _ i j r); [done|].
      unfold f. by rewrite list_lookup_fmap, Hj.
    + apply lookup_insert_eq.
    + intros c Hc. by apply lookup_insert_ne.
Qed.

(** C1 at two movies: three rows come out. *)
Lemma explode_genre_rows_witness :
  ∃ df1 df2,
    split_genre two_movies = Ok df1
    ∧ explode df1 "Genre" = Ok df2
    ∧ length (rows df2) = 3
    ∧ ∀ (i j : nat) r t,
        rows two_movies !! i = Some r → genre_tags r !! j = Some t →
        ∃ r',
          rows df2
            !! (sum_list_with (length ∘ genre_tags) (take i (rows two_movies)) + j)
          = Some r'
          ∧ r' !! "Genre" = Some (Str t)
          ∧ ∀ c, c ≠ "Genre" → r' !! c = r !! c.
Proof.
  apply (explode_genre_rows two_movies Object).
  - reflexivity.
  - reflexivity.
  - repeat constructor; eexists; reflexivity.
Defined.

(** ** C6: the popularity queries *)

Lemma cell_num_Some (c : cell) (x : Q) : cell_num c = Some x → c = Num x.
Proof. destruct c; simpl; intros H; try discriminate. by injection H as ->. Qed.

Lemma filter_single {A} (P : A → Prop) `{!∀ x, Decision (P x)}
    (l : list A) (i : nat) (x : A) :
  l !! i = Some x → P x →
  (∀ (j : nat) y, j ≠ i → l !! j = Some y → ¬ P y) →
  filter P l = [x].
Proof.
  revert i. induction l as [|a l IH]; intros i Hi Hx Hother.
  - by rewrite lookup_nil in Hi.
  - destruct i as [|i]; simpl in Hi.
    + injection Hi as ->. rewrite filter_cons_True by done. f_equal.
      apply list_eq. intros k. rewrite lookup_nil.
      destruct (filter P l !! k) as [y|] eqn:Hk; [|done].
      apply list_elem_of_lookup_2, list_elem_of_filter in Hk as [Hy Hin].
      apply list_elem_of_lookup_1 in Hin as [j Hj].
      exfalso. apply (Hother (S j) y); [lia | done | done].
    + rewrite filter_cons_False.
      * apply (IH i); [done | done |].
        intros j y Hne Hj. apply (Hother (S j) y); [lia | done].
      * apply (Hother 0 a); [lia | done].
Qed.

Section ExtremeQuery.

(** [pick] is [max] or [min]; [R y m] says that [m] is at least as
    extreme as [y]. *)
Variable pick : list Q → cell.
Variable R : Q → Q → Prop.
Hypothesis pick_nil : pick [] = NaN.
Hypothesis pick_spec :
  ∀ xs, xs ≠ [] → ∃ m, pick xs = Num m ∧ m ∈ xs ∧ ∀ y, y ∈ xs → R y m.
Hypothesis R_antisym : ∀ a b, R a b → R b a → (a == b)%Q.
Hypothesis R_eq : ∀ a b c, R a b → (b == c)%Q → R a c.

Lemma popularity_values df (p : Q) :
  p ∈ notna_values (column df "Popularity")
  ↔ ∃ r, r ∈ rows df ∧ popularity r = Some p.
Proof.
  rewrite notna_values_elem. unfold column. rewrite list_elem_of_fmap.
  split.
  - intros (r & Hr & Hin). exists r. split; [done|].
    unfold popularity. by rewrite <- Hr.
  - intros (r & Hin & Hp). exists r. split; [|done].
    symmetry. by apply cell_num_Some.
Qed.

Lemma mask_extreme df (r : gmap string cell) :
  r ∈ rows df →
  float_eqb (at_col "Popularity" r)
    (pick (notna_values (column df "Popularity"))) = true
  ↔ extreme R df r.
Proof.
  intros Hin. set (xs := notna_values (column df "Popularity")).
  unfold float_eqb. fold (popularity r). split.
  - destruct (popularity r) as [x|] eqn:Hx; [|discriminate].
    destruct (decide (xs = [])) as [Hnil|Hne].
    { rewrite Hnil, pick_nil. discriminate. }
    destruct (pick_spec xs Hne) as (m & -> & Hm & Hmax). simpl.
    intros Heq. apply Qeq_bool_iff in Heq.
    exists x. split; [done|]. intros r' p' Hr' Hp'.
    apply R_eq with m; [|by symmetry]. apply Hmax.
    apply popularity_values. eauto.
  - intros (p & Hp & Hext). rewrite Hp.
    assert (p ∈ xs) as Hpx by (apply popularity_values; eauto).
    assert (xs ≠ []) as Hne by (intros E; rewrite E in Hpx; by apply elem_of_nil in Hpx).
    destruct (pick_spec xs Hne) as (m & -> & Hm & Hmax). simpl.
    apply Qeq_bool_iff. apply R_antisym; [by apply Hmax|].
    apply popularity_values in Hm as (r' & Hr' & Hp'). by eapply Hext.
Qed.

Lemma popularity_query_spec df d :
  dtypes df !! "Popularity" = Some d → is_numeric d = true →
  ∃ out,
    popularity_query pick df = Ok out
    ∧ dtypes out = dtypes df
    ∧ rows out `sublist_of` rows df
    ∧ (∀ r, r ∈ rows out ↔ r ∈ rows df ∧ extreme R df r)
    ∧ (∀ (i : nat) r,
         rows df !! i = Some r → extreme R df r →
         (∀ (j : nat) r', j ≠ i → rows df !! j = Some r' → ¬ extreme R df r') →
         rows out = [r]).
Proof.
  intros Hd Hnum. unfold popularity_query, getitem. rewrite Hd. simpl.
  rewrite Hnum. eexists. split; [reflexivity|]. simpl.
  fold (column df "Popularity").
  split; [done|]. split; [apply sublist_filter|]. split.
  - intros r. rewrite list_elem_of_filter. split.
    + intros [Hm Hin]. split; [done|]. by apply mask_extreme.
    + intros [Hin Hext]. split; [|done]. by apply mask_extreme.
  - intros i r Hi Hext Hother. apply (filter_single _ _ i).
    + done.
    + apply mask_extreme; [by eapply list_elem_of_lookup_2 | done].
    + intros j r' Hne Hj Hm. apply (Hother j r' Hne Hj).
      apply mask_extreme; [by eapply list_elem_of_lookup_2 | done].
Qed.

End ExtremeQuery.

(** C6: on a table with a numeric popularity column both queries
    return; the result holds exactly the records whose popularity is the
    maximum (minimum) of the table, tied records all included, in table
    order; and when a single record attains the extremum the result is
    that record alone. *)
Theorem popularity_extremes df d :
  dtypes df !! "Popularity" = Some d → is_numeric d = true →
  ∃ hi lo,
    highest_popularity df = Ok hi
    ∧ lowest_popularity df = Ok lo
    ∧ rows hi `sublist_of` rows df
    ∧ rows lo `sublist_of` rows df
    ∧ (∀ r, r ∈ rows hi ↔ r ∈ rows df ∧ most_popular df r)
    ∧ (∀ r, r ∈ rows lo ↔ r ∈ rows df ∧ least_popular df r)
    ∧ (∀ (i : nat) r,
         rows df !! i = Some r → most_popular df r →
         (∀ (j : nat) r', j ≠ i → rows df !! j = Some r' → ¬ most_popular df r') →
         rows hi = [r])
    ∧ (∀ (i : nat) r,
         rows df !! i = Some r → least_popular df r →
         (∀ (j : nat) r', j ≠ i → rows df !! j = Some r' → ¬ least_popular df r') →
         rows lo = [r]).
Proof.
  intros Hd Hnum.
  destruct (popularity_query_spec nanmax Qle) with (df := df) (d := d)
    as (hi & Hhi & _ & Hsub & Hmem & Hone); try done.
  { intros xs Hne. destruct (nanmax_spec xs Hne) as (m & ? & ? & ?). eauto. }
  { intros a b ? ?. lra. }
  { intros a b c ? ?. lra. }
  destruct (popularity_query_spec nanmin (λ y m, (m <= y)%Q)) with (df := df) (d := d)
    as (lo & Hlo & _ & Hsub' & Hmem' & Hone'); try done.
  { intros xs Hne. destruct (nanmin_spec xs Hne) as (m & ? & ? & ?). eauto. }
  { intros a b ? ?. simpl in *. lra. }
  { intros a b c ? ?. simpl in *. lra. }
  exists hi, lo. done.
Qed.

(** C6 at three rows. *)
Lemma popularity_extremes_witness :
  ∃ hi lo,
    highest_popularity three_rows = Ok hi
    ∧ lowest_popularity three_rows = Ok lo
    ∧ (∀ r, r ∈ rows hi ↔ r ∈ rows three_rows ∧ most_popular three_rows r)
    ∧ (∀ r, r ∈ rows lo ↔ r ∈ rows three_rows ∧ least_popular three_rows r).
Proof.
  destruct (popularity_extremes three_rows Float64)
    as (hi & lo & Hhi & Hlo & _ & _ & Hmem & Hmem' & _); [reflexivity..|].
  exists hi, lo. split; [exact Hhi|]. split; [exact Hlo|].
  split; [exact Hmem | exact Hmem'].
Defined.

(** ** The steps of the script, one by one *)

Lemma run_app parse (p1 p2 : list step) df :
  run parse (p1 ++ p2) df = run parse p1 df ≫= run parse p2.
Proof.
  revert df. induction p1 as [|st p1 IH]; intros df; simpl; [done|].
  destruct (exec parse st df) as [df'|e]; simpl; [apply IH | done].
Qed.

Lemma at_col_foldr_delete (c : string) (cs : list string) (r : gmap string cell) :
  c ∉ cs → at_col c (foldr delete r cs) = at_col c r.
Proof.
  intros Hc. unfold at_col. f_equal.
  induction cs as [|a cs IH]; simpl; [done|].
  apply not_elem_of_cons in Hc as [Hne Hc].
  rewrite lookup_delete_ne by done. by apply IH.
Qed.

Lemma lookup_foldr_delete_elem {V} (c : string) (cs : list string)
    (m : gmap string V) :
  c ∈ cs → foldr delete m cs !! c = None.
Proof.
  induction cs as [|a cs IH]; simpl; [by rewrite elem_of_nil|].
  rewrite elem_of_cons. intros [->|Hc].
  - apply lookup_delete_eq.
  - destruct (decide (a = c)) as [->|Hne]; [apply lookup_delete_eq|].
    rewrite lookup_delete_ne by done. by apply IH.
Qed.

Lemma dom_foldr_delete {V} (cs : list string) (m : gmap string V) :
  dom (foldr delete m cs) = dom m ∖ list_to_set cs.
Proof.
  induction cs as [|a cs IH]; cbn [foldr].
  - by rewrite list_to_set_nil, difference_empty_L.
  - rewrite dom_delete_L, IH, list_to_set_cons, difference_difference_l_L.
    f_equal. apply union_comm_L.
Qed.

Lemma dom_insert_present {V} (c : string) (v : V) (m : gmap string V) :
  is_Some (m !! c) → dom (<[c := v]> m) = dom m.
Proof.
  intros Hc. apply elem_of_dom in Hc. rewrite dom_insert_L.
  by apply subseteq_union_1_L, singleton_subseteq_l.
Qed.

Lemma drop_inv df cs df' :
  drop df cs = Ok df' →
  dtypes df' = foldr delete (dtypes df) cs
  ∧ rows df' = (λ r, foldr delete r cs) <$> rows df.
Proof.
  unfold drop. destruct (filter _ cs); [|discriminate].
  intros H. injection H as <-. done.
Qed.

Lemma to_year_inv parse df df' :
  to_year parse df = Ok df' →
  ∃ s ys, getitem df "Release_Date" = Ok s
          ∧ setitem df "Release_Date" ys = Ok df'.
Proof.
  unfold to_year. intros H. inv_bind H. rename a into s. inv_bind H.
  eauto.
Qed.

(** What writing a column does to the schema and to the other columns. *)
Lemma setitem_frame df col s s0 df' :
  getitem df col = Ok s0 → setitem df col s = Ok df' →
  length (rows df') = length (rows df)
  ∧ dom (dtypes df') = dom (dtypes df)
  ∧ ∀ c, c ≠ col → column df' c = column df c.
Proof.
  intros Hget Hset.
  destruct (getitem_Ok _ _ _ Hget) as [Hd _].
  destruct (setitem_inv _ _ _ _ Hset) as (Hlen & Hdt & Hr & _).
  split; [|split].
  - rewrite Hr, length_zip_with_l_eq; [done | by rewrite Hlen].
  - rewrite Hdt. apply dom_insert_present. eauto.
  - intros c Hc. unfold column. rewrite Hr. by apply zip_insert_other.
Qed.

(** The three steps before the missing-value drop keep every row and
    leave the genre column as it is. *)
Lemma before_dropna parse df mid :
  run parse [ToYear; DropColumns; Categorize] df = Ok mid →
  length (rows mid) = length (rows df)
  ∧ dom (dtypes mid) = dom (dtypes df) ∖ list_to_set cols
  ∧ column mid "Genre" = column df "Genre".
Proof.
  simpl. intros H.
  inv_bind H. rename a into d1, Ha into H1.
  inv_bind H. rename a into d2, Ha into H2.
  inv_bind H. rename a into d3, Ha into H3.
  injection H as <-.
  destruct (to_year_inv _ _ _ H1) as (s & ys & Hs & Hset).
  destruct (setitem_frame _ _ _ _ _ Hs Hset) as (L1 & D1 & C1).
  destruct (drop_inv _ _ _ H2) as [D2 R2].
  destruct (catigorize_col_inv _ _ _ _ H3)
    as (s3 & qs & Hs3 & _ & _ & _ & _ & D3 & R3 & _).
  destruct (getitem_Ok _ _ _ Hs3) as [Hd3 _].
  split; [|split].
  - rewrite R3, length_zip_with_l_eq.
    + by rewrite R2, length_fmap.
    + unfold column. by rewrite !length_fmap.
  - rewrite D3, dom_insert_present by eauto.
    by rewrite D2, dom_foldr_delete, D1.
  - unfold column at 1. rewrite R3, zip_insert_other; [|done|].
    + rewrite <- (C1 "Genre") by done. unfold column. rewrite R2.
      rewrite <- list_fmap_compose. apply list_fmap_ext. intros _ r _.
      apply (at_col_foldr_delete "Genre" cols r). unfold cols.
      rewrite !not_elem_of_cons. repeat split; try done. apply not_elem_of_nil.
    + unfold column. by rewrite !length_fmap.
Qed.

(** The script is the three steps above, the drop, and the three genre
    steps. *)
Lemma pipeline_stages parse df out :
  pipeline parse df = Ok out →
  ∃ mid d5 d6,
    run parse [ToYear; DropColumns; Categorize] df = Ok mid
    ∧ split_genre (dropna mid) = Ok d5
    ∧ explode d5 "Genre" = Ok d6
    ∧ genre_as_category d6 = Ok out.
Proof.
  unfold pipeline, script.
  change [ToYear; DropColumns; Categorize; DropNa; SplitGenre; ExplodeGenre;
          GenreAsCategory]
    with ([ToYear; DropColumns; Categorize]
          ++ [DropNa; SplitGenre; ExplodeGenre; GenreAsCategory]).
  rewrite run_app. intros H.
  inv_bind H. rename a into mid, Ha into Hmid. simpl in H.
  inv_bind H. rename a into d5, Ha into H5.
  inv_bind H. rename a into d6, Ha into H6.
  inv_bind H. injection H as <-.
  exists mid, d5, d6. done.
Qed.

Lemma mapM_result_inv {A B} (f : A → result B) (l : list A) (ys : list B) :
  mapM f l = Ok ys → Forall2 (λ x y, f x = Ok y) l ys.
Proof.
  revert ys. induction l as [|x l IH]; intros ys H.
  - injection H as <-. constructor.
  - cbn in H. destruct (f x) as [y|] eqn:Hx; [|discriminate]. cbn in H.
    destruct (mapM f l) as [k|]; [|discriminate]. cbn in H.
    injection H as <-. constructor; [done | by apply IH].
Qed.

Lemma year_cell_Ok parse c y :
  year_cell parse c = Ok y →
  (isna c = true ∨ is_Some (parse c)) ∧ (y = NaN ∨ ∃ z, y = Num (inject_Z z)).
Proof.
  unfold year_cell. destruct (isna c).
  - intros [= <-]. auto.
  - destruct (parse c) as [z|]; [|discriminate]. intros [= <-]. eauto.
Qed.

Lemma elem_of_zip_insert (col : string) (rs : list (gmap string cell))
    (vs : list cell) (r : gmap string cell) :
  r ∈ zip_with (λ r v, <[col := v]> r) rs vs →
  ∃ r0 v, r0 ∈ rs ∧ v ∈ vs ∧ r = <[col := v]> r0.
Proof.
  intros H. apply elem_of_zip_with in H as (r0 & v & -> & H1 & H2). eauto.
Qed.

Lemma lookup_foldr_delete_ne {V} (c : string) (cs : list string)
    (m : gmap string V) :
  c ∉ cs → foldr delete m cs !! c = m !! c.
Proof.
  induction cs as [|a cs IH]; simpl; [done|].
  intros [Hne Hc]%not_elem_of_cons.
  rewrite lookup_delete_ne by done. by apply IH.
Qed.

Lemma cols_elem (c : string) :
  c ∈ cols → c ≠ "Release_Date" ∧ c ≠ "Vote_Average" ∧ c ≠ "Genre".
Proof.
  unfold cols. rewrite !elem_of_cons, elem_of_nil.
  intros [->|[->|[->|[]]]]; done.
Qed.

Lemma not_in_cols (c : string) :
  c = "Release_Date" ∨ c = "Vote_Average" ∨ c = "Genre" → c ∉ cols.
Proof.
  intros H Hc. destruct (cols_elem c Hc) as (H1 & H2 & H3).
  destruct H as [-> | [-> | ->]]; done.
Qed.

(** What the date conversion needs and what it leaves. *)
Lemma to_year_spec parse df df' :
  to_year parse df = Ok df' ↔
  ∃ d ys,
    dtypes df !! "Release_Date" = Some d
    ∧ Forall2 (λ c y, year_cell parse c = Ok y) (column df "Release_Date") ys
    ∧ df' = {| dtypes := <["Release_Date" :=
                            if existsb isna ys then Float64 else Int64]>
                          (dtypes df);
               rows := zip_with (λ r v, <["Release_Date" := v]> r)
                         (rows df) ys |}.
Proof.
  unfold to_year, getitem. split.
  - destruct (dtypes df !! "Release_Date") as [d|]; [|discriminate].
    cbn. fold (column df "Release_Date").
    destruct (mapM (year_cell parse) (column df "Release_Date")) as [ys|] eqn:E;
      [|discriminate].
    cbn. intros H. apply mapM_result_inv in E.
    unfold setitem in H. cbn in H.
    destruct (length ys =? length (rows df)); [|discriminate].
    injection H as <-. eauto.
  - intros (d & ys & Hd & Hys & ->). rewrite Hd. cbn.
    fold (column df "Release_Date").
    assert (mapM (year_cell parse) (column df "Release_Date") = Ok ys) as ->.
    { induction Hys as [|c y l k Hc _ IH]; [done|].
      cbn. rewrite Hc. cbn. rewrite IH. done. }
    cbn. unfold setitem. cbn.
    rewrite <- (Forall2_length _ _ _ Hys). unfold column.
    by rewrite length_fmap, Nat.eqb_refl.
Qed.

(** With two distinct scores in the column every score has a bin. *)
Lemma scores_have_bins df col s qs :
  getitem df col = Ok s → is_numeric (dtype_of s) = true →
  quartile_edges df col = Ok qs →
  (∃ (i j : nat) x y, column df col !! i = Some (Num x)
                      ∧ column df col !! j = Some (Num y) ∧ ¬ (x == y)%Q) →
  ∀ x, Num x ∈ column df col → ∃ j, in_bin (bin_edges qs) j x.
Proof.
  intros Hs Hnum Hqs (i0 & j0 & x0 & y0 & Hx0 & Hy0 & Hxy) x Hx.
  destruct (getitem_Ok _ _ _ Hs) as [_ Hv].
  destruct (quartile_edges_inv _ _ _ Hqs) as (s' & Hs' & _ & Hne).
  rewrite Hs in Hs'. injection Hs' as <-.
  destruct (quartile_edges_spec _ _ _ Hs Hnum Hne)
    as (mn & q1 & q2 & q3 & mx & Hqs' & Hmn & Hmx & Hb & H1 & H2 & H3).
  rewrite Hqs in Hqs'. injection Hqs' as ->.
  set (qs := [mn; q1; q2; q3; mx]) in *.
  assert (∀ y, y ∈ qs → (mn <= y <= mx)%Q) as Hqb.
  { intros y Hy. unfold qs in Hy. rewrite !elem_of_cons, elem_of_nil in Hy.
    assert (mn <= mx)%Q by (apply (Hb mn Hmn)).
    destruct Hy as [->|[->|[->|[->|[->|[]]]]]]; lra. }
  assert (mn < mx)%Q as Hlt.
  { rewrite <- Hv in Hx0, Hy0.
    apply list_elem_of_lookup_2, Hb in Hx0.
    apply list_elem_of_lookup_2, Hb in Hy0.
    destruct (Qlt_le_dec mn mx); [done|]. exfalso. apply Hxy. lra. }
  assert (mn ∈ qs) as Hmn_in by apply list_elem_of_here.
  assert (mx ∈ qs) as Hmx_in by (unfold qs; rewrite !elem_of_cons; tauto).
  pose proof (two_values_two_edges qs mn mx Hmn_in Hmx_in Hlt) as Hlen2.
  destruct (bin_edges_first qs mn Hmn_in) as (e0 & He0 & Heq0).
  { intros y Hy. by apply Hqb. }
  destruct (bin_edges_last qs mx Hmx_in) as (el & Hel & Heql).
  { intros y Hy. by apply Hqb. }
  assert (mn <= x <= mx)%Q as Hxb by (apply Hb; by rewrite Hv).
  apply (bin_exists (bin_edges qs) x e0 el); try done; try lra.
  apply bin_edges_strict.
Qed.

(** ** Missing values *)

Lemma row_isna_false df (r : gmap string cell) :
  row_isna df r = false
  ↔ ∀ c, c ∈ dom (dtypes df) → ∃ v, r !! c = Some v ∧ isna v = false.
Proof.
  unfold row_isna, columns. split.
  - intros H c Hc.
    assert (isna (at_col c r) = false) as Hna.
    { destruct (isna (at_col c r)) eqn:E; [|done].
      assert (existsb (λ c, isna (at_col c r)) (elements (dom (dtypes df)))
              = true) as Ht; [|congruence].
      apply existsb_exists. exists c. split; [|done].
      apply list_elem_of_In, elem_of_elements. done. }
    unfold at_col in Hna. destruct (r !! c) as [v|]; [eauto | done].
  - intros H. destruct (existsb _ _) eqn:E; [|done].
    apply existsb_exists in E as (c & Hc & Hna).
    apply list_elem_of_In, elem_of_elements in Hc.
    destruct (H c Hc) as (v & Hv & Hv'). unfold at_col in Hna.
    rewrite Hv in Hna. simpl in Hna. congruence.
Qed.

Lemma dropna_no_missing df : no_missing (dropna df).
Proof.
  intros r c Hr Hc. simpl in *.
  apply list_elem_of_filter in Hr as [Hna _].
  exact (proj1 (row_isna_false df r) Hna c Hc).
Qed.

Lemma column_dropna_Forall (P : cell → Prop) df col :
  Forall P (column df col) → Forall P (column (dropna df) col).
Proof.
  unfold column. rewrite !Forall_fmap. simpl. intros H.
  apply Forall_forall. intros r Hr. apply list_elem_of_filter in Hr as [_ Hr].
  rewrite Forall_forall in H. by apply H.
Qed.

Lemma explode_inv df col df' :
  explode df col = Ok df' →
  is_Some (dtypes df !! col)
  ∧ dtypes df' = dtypes df ∧ rows df' = rows df ≫= explode_row col.
Proof.
  unfold explode. destruct (dtypes df !! col) eqn:E; [|discriminate].
  intros H. injection H as <-. eauto.
Qed.

(** Splitting then exploding the genre column of a table without
    missing values leaves no missing value. *)
Lemma explode_no_missing df d1 d2 :
  no_missing df → Forall text_or_missing (column df "Genre") →
  split_genre df = Ok d1 → explode d1 "Genre" = Ok d2 →
  no_missing d2.
Proof.
  intros Hnm Htext H1 H2.
  destruct (split_genre_inv _ _ H1) as (d & Hd & Hnum & Hdt1 & Hr1).
  destruct (explode_inv _ _ _ H2) as (_ & Hdt2 & Hr2).
  assert ("Genre" ∈ dom (dtypes df)) as HG by (apply elem_of_dom; eauto).
  intros r' c Hr' Hc.
  rewrite Hdt2, Hdt1, dom_insert_present in Hc by eauto.
  rewrite Hr2, Hr1, list_fmap_bind in Hr'.
  apply list_elem_of_bind in Hr' as (r & Hr' & Hr). simpl in Hr'.
  destruct (Hnm r "Genre" Hr HG) as (v & Hv & Hvna).
  assert (∃ g, v = Str g) as [g ->].
  { unfold column in Htext. rewrite Forall_fmap, Forall_forall in Htext.
    specialize (Htext r Hr). simpl in Htext. unfold at_col in Htext.
    rewrite Hv in Htext. simpl in Htext.
    destruct Htext as [->|[g ->]]; [done | eauto]. }
  rewrite (explode_split_row r g Hv) in Hr'.
  apply list_elem_of_fmap in Hr' as (t & -> & _).
  destruct (decide (c = "Genre")) as [->|Hne].
  - exists (Str t). by rewrite lookup_insert_eq.
  - rewrite lookup_insert_ne by done. by apply Hnm.
Qed.

Lemma genre_as_category_inv df df' :
  genre_as_category df = Ok df' →
  dom (dtypes df') = dom (dtypes df)
  ∧ rows df' = (λ r, <["Genre" := at_col "Genre" r]> r) <$> rows df.
Proof.
  unfold genre_as_category. intros H. inv_bind H. rename a into s, Ha into Hs.
  destruct (setitem_frame _ _ _ _ _ Hs H) as (_ & Hdom & _).
  destruct (setitem_inv _ _ _ _ H) as (_ & _ & Hr & _).
  split; [done|]. rewrite Hr. simpl.
  destruct (getitem_Ok _ _ _ Hs) as [_ ->].
  unfold column. rewrite <- (list_fmap_id (at_col "Genre" <$> rows df)).
  apply (zip_insert_fmap "Genre" id).
Qed.

Lemma genre_as_category_no_missing df df' :
  no_missing df → genre_as_category df = Ok df' → no_missing df'.
Proof.
  intros Hnm H. destruct (genre_as_category_inv _ _ H) as [Hdom Hr].
  intros r' c Hr' Hc. rewrite Hdom in Hc. rewrite Hr in Hr'.
  apply list_elem_of_fmap in Hr' as (r & -> & Hin).
  destruct (Hnm r c Hin Hc) as (v & Hv & Hna).
  destruct (decide (c = "Genre")) as [->|Hne].
  - rewrite lookup_insert_eq. unfold at_col. rewrite Hv. eauto.
  - rewrite lookup_insert_ne by done. eauto.
Qed.

(** ** C5: where the missing-value drop stands in the script *)

(** C5, as stated, fails: the genre explosion does not precede the
    missing-value drop in the script. *)
Lemma dropna_after_explode_fails :
  ¬ (runs_before Categorize DropNa script
     ∧ runs_before ExplodeGenre DropNa script).
Proof.
  intros [_ (i & j & Hi & Hj & Hij)].
  assert (i = 5) as ->.
  { destruct i as [|[|[|[|[|[|[|i]]]]]]]; simpl in Hi;
      try discriminate; reflexivity. }
  assert (j = 3) as ->.
  { destruct j as [|[|[|[|[|[|[|j]]]]]]]; simpl in Hj;
      try discriminate; reflexivity. }
  lia.
Qed.

(** C5 (amended): the missing-value drop is applied after the
    categorization and before the genre is split and exploded; the data
    set handed to the reporter is the outcome of the three genre steps
    on the dropped table. *)
Theorem dropna_between parse df out :
  pipeline parse df = Ok out →
  runs_before Categorize DropNa script
  ∧ runs_before DropNa SplitGenre script
  ∧ runs_before DropNa ExplodeGenre script
  ∧ ∃ mid,
      run parse [ToYear; DropColumns; Categorize] df = Ok mid
      ∧ run parse [SplitGenre; ExplodeGenre; GenreAsCategory] (dropna mid)
        = Ok out.
Proof.
  intros H.
  split; [exists 2, 3; split; [reflexivity | split; [reflexivity | lia]]|].
  split; [exists 3, 4; split; [reflexivity | split; [reflexivity | lia]]|].
  split; [exists 3, 5; split; [reflexivity | split; [reflexivity | lia]]|].
  destruct (pipeline_stages _ _ _ H) as (mid & d5 & d6 & Hmid & H5 & H6 & H7).
  exists mid. split; [done|]. simpl. rewrite H5. simpl. rewrite H6. simpl.
  by rewrite H7.
Qed.

(** The amended C5 on the two-movie table. *)
Lemma dropna_between_witness :
  ∃ out,
    pipeline iso_year two_movies = Ok out
    ∧ runs_before Categorize DropNa script
    ∧ runs_before DropNa ExplodeGenre script
    ∧ ∃ mid,
        run iso_year [ToYear; DropColumns; Categorize] two_movies = Ok mid
        ∧ run iso_year [SplitGenre; ExplodeGenre; GenreAsCategory] (dropna mid)
          = Ok out.
Proof.
  assert (∃ out, pipeline iso_year two_movies = Ok out) as [out Hout].
  { eexists. vm_compute. reflexivity. }
  destruct (dropna_between iso_year two_movies out Hout) as (H1 & _ & H3 & H4).
  exists out. split; [exact Hout|]. split; [exact H1|].
  split; [exact H3 | exact H4].
Defined.

(** ** C7: which rows are removed *)

Lemma explode_row_spec (col : string) (r : gmap string cell) :
  explode_row col r ≠ []
  ∧ ∀ r', r' ∈ explode_row col r → ∀ c, c ≠ col → r' !! c = r !! c.
Proof.
  unfold explode_row. destruct (at_col col r) as [| | |[|t l]]; split;
    try done; intros r' Hr' c Hc.
  - apply list_elem_of_singleton in Hr' as ->. done.
  - apply list_elem_of_singleton in Hr' as ->. done.
  - apply list_elem_of_singleton in Hr' as ->. done.
  - apply list_elem_of_singleton in Hr' as ->. by rewrite lookup_insert_ne.
  - apply list_elem_of_fmap in Hr' as (t' & -> & _).
    by rewrite lookup_insert_ne.
Qed.













(** A duplicated record is counted by the inspector and both copies
    reach the final data set. *)
Example duplicates_reported_and_kept :
  duplicated_sum twins = 1 ∧ row_count (pipeline iso_year twins) = Some 3.
Proof. split; vm_compute; reflexivity. Qed.

(** The five-movie sample explodes into nine rows. *)
Example sample_run : row_count (pipeline iso_year sample) = Some 9.
Proof. vm_compute. reflexivity. Qed.


(** ** C8: no missing value in the final data set *)

Lemma scores_no_missing (l : list Q) : no_missing (scores l).
Proof.
  intros r c Hr Hc. simpl in *.
  apply list_elem_of_fmap in Hr as (v & -> & _).
  rewrite dom_singleton_L in Hc. apply elem_of_singleton in Hc as ->.
  exists (Num v). by rewrite lookup_singleton_eq.
Qed.

(** C8, as stated, fails in its last part: categorization does not
    preserve the absence of missing values; a table of three equal
    scores has none, and after categorization every score is missing. *)
Lemma keeps_no_missing_fails : ¬ keeps_no_missing (scores [5; 5; 5]%Q).
Proof.
  intros H.
  assert (catigorize_col (scores [5; 5; 5]%Q) "Vote_Average" labels
          = Ok {| dtypes := <["Vote_Average" := Category []]>
                              {[ "Vote_Average" := Float64 ]};
                  rows := (λ _ : Q, {[ "Vote_Average" := NaN ]}) <$> [5; 5; 5]%Q |})
    as Hc by (vm_compute; reflexivity).
  specialize (H _ (scores_no_missing _) Hc).
  destruct (H {[ "Vote_Average" := NaN ]} "Vote_Average") as (v & Hv & Hna).
  - simpl. apply list_elem_of_here.
  - simpl. apply elem_of_dom. rewrite lookup_insert_eq. eauto.
  - rewrite lookup_singleton_eq in Hv. injection Hv as <-. discriminate.
Qed.

Lemma categorize_no_missing df col lbls df' :
  no_missing df →
  Forall (λ c, ∃ x, c = Num x) (column df col) →
  (∃ (i j : nat) x y, column df col !! i = Some (Num x)
                      ∧ column df col !! j = Some (Num y) ∧ ¬ (x == y)%Q) →
  catigorize_col df col lbls = Ok df' → no_missing df'.
Proof.
  intros Hnm Hnums Htwo Hcat.
  destruct (catigorize_col_inv _ _ _ _ Hcat)
    as (s & qs & Hs & Hnum & Hqs & _ & HlenL & Hd & Hr & _).
  destruct (getitem_Ok _ _ _ Hs) as [Hdt _].
  unfold column in Hr. rewrite zip_insert_fmap in Hr.
  intros r' c Hr' Hc.
  rewrite Hd, dom_insert_present in Hc by eauto.
  rewrite Hr in Hr'. apply list_elem_of_fmap in Hr' as (r & -> & Hin).
  destruct (decide (c = col)) as [->|Hne].
  - rewrite lookup_insert_eq.
    assert (at_col col r ∈ column df col) as Hcell.
    { unfold column. apply list_elem_of_fmap. eauto. }
    rewrite Forall_forall in Hnums. destruct (Hnums _ Hcell) as [x Hx].
    rewrite Hx in *.
    destruct (scores_have_bins _ _ _ _ Hs Hnum Hqs Htwo x Hcell) as [j Hj].
    destruct (binned_label _ lbls j x (bin_edges_strict qs) HlenL Hj)
      as (lbl & _ & _ & ->).
    eauto.
  - rewrite lookup_insert_ne by done. by apply Hnm.
Qed.

(** C8 (amended): when the genre column of the input holds text or
    missing values and the script runs through, the final data set has
    no missing value in any of its columns, which are the input columns
    less the three dropped ones.  The invariant is established by the
    missing-value drop, which runs after categorization, and preserved by
    the explosion and the category cast; categorization itself preserves
    it for a score column of numbers with at least two distinct
    values. *)
Theorem final_no_missing parse df out :
  Forall text_or_missing (column df "Genre") →
  pipeline parse df = Ok out →
  no_missing out
  ∧ dom (dtypes out) = dom (dtypes df) ∖ list_to_set cols
  ∧ (∀ d, no_missing (dropna d))
  ∧ (∀ d d1 d2,
       no_missing d → Forall text_or_missing (column d "Genre") →
       split_genre d = Ok d1 → explode d1 "Genre" = Ok d2 → no_missing d2)
  ∧ (∀ d d', no_missing d → genre_as_category d = Ok d' → no_missing d')
  ∧ (∀ d col lbls d',
       no_missing d →
       Forall (λ c, ∃ x, c = Num x) (column d col) →
       (∃ (i j : nat) x y, column d col !! i = Some (Num x)
                           ∧ column d col !! j = Some (Num y) ∧ ¬ (x == y)%Q) →
       catigorize_col d col lbls = Ok d' → no_missing d').
Proof.
  intros Htext H.
  destruct (pipeline_stages _ _ _ H) as (mid & d5 & d6 & Hmid & H5 & H6 & H7).
  destruct (before_dropna _ _ _ Hmid) as (_ & Hdom & Hgenre).
  assert (no_missing d6) as Hnm6.
  { apply (explode_no_missing (dropna mid) d5 d6); try done.
    - apply dropna_no_missing.
    - apply column_dropna_Forall. by rewrite Hgenre. }
  split; [by eapply genre_as_category_no_missing|].
  split.
  - destruct (genre_as_category_inv _ _ H7) as [-> _].
    destruct (explode_inv _ _ _ H6) as (_ & -> & _).
    destruct (split_genre_inv _ _ H5) as (d & Hd & _ & -> & _).
    rewrite dom_insert_present by eauto. done.
  - split; [apply dropna_no_missing|].
    split; [apply explode_no_missing|].
    split; [apply genre_as_category_no_missing|].
    apply categorize_no_missing.
Qed.

(** The amended C8 on the two-movie table. *)
Lemma final_no_missing_witness :
  ∃ out,
    pipeline iso_year two_movies = Ok out
    ∧ no_missing out
    ∧ dom (dtypes out) = dom (dtypes two_movies) ∖ list_to_set cols.
Proof.
  assert (∃ out, pipeline iso_year two_movies = Ok out) as [out Hout].
  { eexists. vm_compute. reflexivity. }
  destruct (final_no_missing iso_year two_movies out) as (H1 & H2 & _).
  - unfold column, two_movies. simpl.
    repeat (constructor; [right; eexists; reflexivity|]). constructor.
  - exact Hout.
  - exists out. split; [exact Hout|]. split; [exact H1 | exact H2].
Defined.

(** * Further properties of the script *)

(** ** Splitting the genre string *)

(** X1: the tags [str.split(', ')] cuts a genre string into, joined
    again with comma-space, give the genre string back: no character is
    lost or invented by the split. *)
Theorem split_genre_join (g : string) : join ", " (split ", " g) = g.
Proof. by apply join_split. Qed.

(** ** Dropping the three columns *)

Lemma drop_Ok df cs :
  Forall (λ c, is_Some (dtypes df !! c)) cs →
  drop df cs
  = Ok {| dtypes := foldr delete (dtypes df) cs;
          rows := (λ r, foldr delete r cs) <$> rows df |}.
Proof.
  intros Hall. unfold drop.
  assert (filter (λ c, dtypes df !! c = None) cs = []) as ->; [|done].
  induction Hall as [|c cs [d Hc] _ IH]; [done|].
  rewrite filter_cons_False; [done|]. by rewrite Hc.
Qed.

(** X2: when the columns to drop all exist, [df.drop(cols, axis=1)]
    returns; the schema loses exactly these columns, no row is added or
    removed, every remaining column keeps its cells, and no row holds a
    cell of a dropped column any more. *)
Theorem drop_columns_removed df cs :
  Forall (λ c, is_Some (dtypes df !! c)) cs →
  ∃ df',
    drop df cs = Ok df'
    ∧ dom (dtypes df') = dom (dtypes df) ∖ list_to_set cs
    ∧ length (rows df') = length (rows df)
    ∧ (∀ c, c ∉ cs → dtypes df' !! c = dtypes df !! c
                      ∧ column df' c = column df c)
    ∧ (∀ r c, r ∈ rows df' → c ∈ cs → r !! c = None).
Proof.
  intros Hall. eexists. split; [by apply drop_Ok|]. simpl.
  split; [apply dom_foldr_delete|]. split; [by rewrite length_fmap|].
  split.
  - intros c Hc. split.
    + clear Hall. induction cs as [|a cs IH]; [done|]. simpl.
      apply not_elem_of_cons in Hc as [Hne Hc].
      rewrite lookup_delete_ne by done. by apply IH.
    + unfold column. simpl. rewrite <- list_fmap_compose.
      apply list_fmap_ext. intros _ r _. by apply at_col_foldr_delete.
  - intros r c Hr Hc. apply list_elem_of_fmap in Hr as (r0 & -> & _).
    by apply lookup_foldr_delete_elem.
Qed.

(** X2 on the two-movie table and the three columns of the script. *)
Lemma drop_columns_removed_witness :
  ∃ df',
    drop two_movies cols = Ok df'
    ∧ dom (dtypes df') = dom (dtypes two_movies) ∖ list_to_set cols
    ∧ length (rows df') = length (rows two_movies).
Proof.
  destruct (drop_columns_removed two_movies cols) as (df' & H1 & H2 & H3 & _).
  - unfold cols. repeat (constructor; [eexists; reflexivity|]). constructor.
  - exists df'. split; [exact H1|]. split; [exact H2 | exact H3].
Defined.

(** X3: a column to drop that the table does not have stops [df.drop]
    with a [KeyError]. *)
Theorem drop_missing_column df cs c :
  c ∈ cs → dtypes df !! c = None →
  ∃ msg, drop df cs = Err (KeyError msg).
Proof.
  intros Hc Hnone. unfold drop.
  destruct (filter (λ c, dtypes df !! c = None) cs) as [|c' l] eqn:E; [|eauto].
  assert (c ∈ filter (λ c, dtypes df !! c = None) cs) as Hin
    by (by apply list_elem_of_filter).
  rewrite E in Hin. by apply elem_of_nil in Hin.
Qed.

(** X3 on a table of scores only: there is no overview to drop. *)
Lemma drop_missing_column_witness :
  ∃ msg, drop (scores [1; 2]%Q) cols = Err (KeyError msg).
Proof.
  apply (drop_missing_column (scores [1; 2]%Q) cols "Overview").
  - unfold cols. apply list_elem_of_here.
  - reflexivity.
Defined.

(** X4: dropping columns is not repeatable: after a successful drop of
    a non-empty list of columns, dropping the same list again fails
    with a [KeyError]. *)
Theorem drop_twice_fails df cs df' :
  cs ≠ [] → drop df cs = Ok df' → ∃ c', drop df' cs = Err (KeyError c').
Proof.
  intros Hne H. destruct cs as [|c cs]; [done|].
  destruct (drop_inv _ _ _ H) as [Hd _].
  unfold drop.
  destruct (filter (λ a, dtypes df' !! a = None) (c :: cs)) as [|c' l] eqn:E;
    [|eauto].
  assert (c ∈ filter (λ a, dtypes df' !! a = None) (c :: cs)) as Hin.
  { apply list_elem_of_filter. split; [|apply list_elem_of_here].
    rewrite Hd. apply lookup_foldr_delete_elem, list_elem_of_here. }
  rewrite E in Hin. by apply elem_of_nil in Hin.
Qed.

(** X4 on the two-movie table and the three columns of the script. *)
Lemma drop_twice_fails_witness :
  ∃ df1, drop two_movies cols = Ok df1
         ∧ ∃ c', drop df1 cols = Err (KeyError c').
Proof.
  assert (∃ df1, drop two_movies cols = Ok df1) as [df1 H1].
  { eexists. apply drop_Ok. unfold cols.
    repeat (constructor; [eexists; reflexivity|]). constructor. }
  exists df1. split; [exact H1|].
  apply (drop_twice_fails two_movies cols df1); [discriminate | exact H1].
Defined.

(** ** Dropping rows with missing values *)

Lemma dropna_rows df :
  rows (dropna df) = filter (λ r, row_isna df r = false) (rows df).
Proof. done. Qed.

(** X5: [dropna] is idempotent: dropping a second time removes
    nothing. *)
Theorem dropna_idempotent df : dropna (dropna df) = dropna df.
Proof.
  unfold dropna. simpl. f_equal.
  apply filter_all, Forall_forall. intros r Hr.
  apply list_elem_of_filter in Hr as [Hr _]. exact Hr.
Qed.

(** X6: [dropna] leaves a table without missing values as it is. *)
Theorem dropna_complete df :
  Forall (λ r, row_isna df r = false) (rows df) → dropna df = df.
Proof.
  intros Hall. destruct df as [dt rs]. unfold dropna. simpl in *.
  f_equal. by apply filter_all.
Qed.

(** X6 on the two-movie table. *)
Lemma dropna_complete_witness : dropna two_movies = two_movies.
Proof.
  apply dropna_complete. unfold two_movies. simpl.
  repeat (constructor; [vm_compute; reflexivity|]). constructor.
Defined.

(** X7: after the drop the count of missing cells the script prints,
    [df.isna().sum()], is zero for every column of the table, and the
    columns are those the table had. *)
Theorem isna_sum_after_dropna df c :
  isna_sum (dropna df) !! c
  = if decide (c ∈ dom (dtypes df)) then Some 0 else None.
Proof.
  unfold isna_sum. rewrite map_lookup_imap. simpl.
  destruct (decide (c ∈ dom (dtypes df))) as [Hc|Hc].
  - pose proof Hc as Hc'. apply elem_of_dom in Hc' as [d Hd]. rewrite Hd. simpl.
    f_equal.
    assert (filter (λ v, isna v = true) (column (dropna df) c) = []) as ->;
      [|done].
    apply list_eq. intros k. rewrite lookup_nil.
    destruct (filter _ _ !! k) as [v|] eqn:Hk; [|done]. exfalso.
    apply list_elem_of_lookup_2, list_elem_of_filter in Hk as [Hna Hin].
    apply list_elem_of_fmap in Hin as (r & -> & Hr).
    destruct (dropna_no_missing df r c Hr Hc) as (v & Hv & Hv').
    unfold at_col in Hna. rewrite Hv in Hna. simpl in Hna. congruence.
  - apply not_elem_of_dom in Hc. by rewrite Hc.
Qed.

(** ** Exploding *)

Lemma bind_singletons {A} (f : A → list A) (l : list A) :
  Forall (λ x, f x = [x]) l → l ≫= f = l.
Proof.
  induction 1 as [|x l Hx _ IH]; [done|].
  by rewrite bind_cons, Hx, IH.
Qed.

Lemma explode_row_scalar (col : string) (r r' : gmap string cell) :
  r' ∈ explode_row col r → scalar (at_col col r').
Proof.
  unfold explode_row. destruct (at_col col r) as [| | |[|t l]] eqn:E;
    intros Hr' l0.
  - apply list_elem_of_singleton in Hr' as ->. by rewrite E.
  - apply list_elem_of_singleton in Hr' as ->. by rewrite E.
  - apply list_elem_of_singleton in Hr' as ->. by rewrite E.
  - apply list_elem_of_singleton in Hr' as ->.
    unfold at_col. by rewrite lookup_insert_eq.
  - apply list_elem_of_fmap in Hr' as (t' & -> & _).
    unfold at_col. by rewrite lookup_insert_eq.
Qed.

(** X8: whatever the table, after [explode] no cell of the exploded
    column is a list any more, never fewer rows are left than there
    were, and exploding a second time changes nothing. *)
Theorem explode_scalars df col df' :
  explode df col = Ok df' →
  Forall scalar (column df' col)
  ∧ length (rows df) ≤ length (rows df')
  ∧ explode df' col = Ok df'.
Proof.
  intros H. destruct (explode_inv _ _ _ H) as (Hd & Hdt & Hr).
  assert (Forall scalar (column df' col)) as Hsc.
  { unfold column. rewrite Forall_fmap, Hr. apply Forall_forall.
    intros r' Hr'. apply list_elem_of_bind in Hr' as (r & Hr' & _).
    simpl. by eapply explode_row_scalar. }
  split; [done|]. split.
  - rewrite Hr, bind_length. clear.
    induction (rows df) as [|r l IH]; simpl; [lia|].
    destruct (explode_row_spec col r) as [Hne _].
    destruct (explode_row col r); [done|]. simpl. lia.
  - rewrite explode_Ok by (by rewrite Hdt).
    destruct df' as [dt rs]. simpl in *. f_equal. f_equal.
    apply bind_singletons. unfold column in Hsc. rewrite Forall_fmap in Hsc.
    eapply Forall_impl; [exact Hsc|]. intros r Hs. simpl in Hs.
    unfold explode_row. destruct (at_col col r) as [| | |l]; try done.
    by destruct (Hs l).
Qed.

(** X8 on the two-movie table, after the genre has been split. *)
Lemma explode_scalars_witness :
  ∃ df1 df2,
    split_genre two_movies = Ok df1
    ∧ explode df1 "Genre" = Ok df2
    ∧ Forall scalar (column df2 "Genre")
    ∧ explode df2 "Genre" = Ok df2.
Proof.
  destruct (split_genre_Ok two_movies Object) as (df1 & H1 & Hdt & _);
    [reflexivity..|].
  assert (is_Some (dtypes df1 !! "Genre")) as Hsome.
  { rewrite Hdt, lookup_insert_eq. eauto. }
  pose proof (explode_Ok df1 "Genre" Hsome) as H2.
  destruct (explode_scalars df1 "Genre" _ H2) as (Ha & _ & Hb).
  eexists df1, _. split; [exact H1|]. split; [exact H2|].
  split; [exact Ha | exact Hb].
Defined.

(** ** The release year *)

Lemma mapM_result_Ok {A B} (f : A → result B) (l : list A) (g : A → B) :
  Forall (λ x, f x = Ok (g x)) l → mapM f l = Ok (g <$> l).
Proof.
  induction 1 as [|x l Hx _ IH]; [done|].
  cbn. rewrite Hx. cbn. rewrite IH. done.
Qed.

Lemma mapM_result_Err {A B} (f : A → result B) (l : list A) (e : error) (x : A) :
  x ∈ l → f x = Err e → (∀ y e', f y = Err e' → e' = e) →
  mapM f l = Err e.
Proof.
  intros Hx Hfx Hsame. induction l as [|y l IH]; [by apply elem_of_nil in Hx|].
  cbn. destruct (f y) as [b|e'] eqn:Hy.
  - cbn. apply elem_of_cons in Hx as [->|Hx]; [congruence|].
    rewrite IH by done. done.
  - cbn. f_equal. by eapply Hsame.
Qed.

Lemma year_cell_Err parse c e :
  year_cell parse c = Err e → e = ValueError "Unknown datetime string format".
Proof.
  unfold year_cell. destruct (isna c); [discriminate|].
  destruct (parse c); [discriminate|]. by intros [= <-].
Qed.

(** X9: when the release-date column exists and every date that is not
    missing parses, the conversion returns: each date is replaced by
    its year, a missing date stays missing, no row is added or removed,
    and every other column keeps its cells. *)
Theorem to_year_converts parse df d :
  dtypes df !! "Release_Date" = Some d →
  Forall (λ c, isna c = true ∨ is_Some (parse c)) (column df "Release_Date") →
  ∃ df',
    to_year parse df = Ok df'
    ∧ length (rows df') = length (rows df)
    ∧ dom (dtypes df') = dom (dtypes df)
    ∧ column df' "Release_Date" = year_of parse <$> column df "Release_Date"
    ∧ ∀ c, c ≠ "Release_Date" → column df' c = column df c.
Proof.
  intros Hd Hall. unfold to_year, getitem. rewrite Hd. cbn.
  fold (column df "Release_Date").
  rewrite (mapM_result_Ok (year_cell parse) _ (year_of parse)).
  - cbn.
    destruct (setitem_Ok df "Release_Date"
                {| dtype_of := if existsb isna
                                    (year_of parse <$> column df "Release_Date")
                               then Float64 else Int64;
                   values := year_of parse <$> column df "Release_Date" |})
      as (df' & Hset & Hdt & Hr & Hcol).
    { simpl. unfold column. by rewrite !length_fmap. }
    edestruct (setitem_frame df "Release_Date") as (Hlen & Hdom & Hother);
      [unfold getitem; rewrite Hd; reflexivity | exact Hset |].
    exists df'. split; [exact Hset|]. split; [exact Hlen|].
    split; [exact Hdom|]. split; [exact Hcol | exact Hother].
  - eapply Forall_impl; [exact Hall|]. intros c Hc. simpl in Hc.
    unfold year_cell, year_of. destruct (isna c); [done|].
    destruct Hc as [|[y Hy]]; [done|]. by rewrite Hy.
Qed.

(** X9 on the two-movie table with the ISO date parser. *)
Lemma to_year_converts_witness :
  ∃ df',
    to_year iso_year two_movies = Ok df'
    ∧ column df' "Release_Date" = [Num 2017; Num 2018].
Proof.
  destruct (to_year_converts iso_year two_movies Object)
    as (df' & H1 & _ & _ & H2 & _).
  - reflexivity.
  - unfold column, two_movies. simpl.
    repeat (constructor; [right; eexists; reflexivity|]). constructor.
  - exists df'. split; [exact H1|]. rewrite H2. reflexivity.
Defined.

(** X10: one date that is not missing and does not parse aborts the
    conversion with a [ValueError]; no row-level recovery takes place. *)
Theorem to_year_unparseable parse df d c :
  dtypes df !! "Release_Date" = Some d →
  c ∈ column df "Release_Date" → isna c = false → parse c = None →
  ∃ msg, to_year parse df = Err (ValueError msg).
Proof.
  intros Hd Hc Hna Hp. eexists. unfold to_year, getitem. rewrite Hd. cbn.
  fold (column df "Release_Date").
  rewrite (mapM_result_Err (year_cell parse) _
             (ValueError "Unknown datetime string format") c); try done.
  - unfold year_cell. by rewrite Hna, Hp.
  - intros y e' He'. by apply year_cell_Err in He'.
Qed.

(** X10 on a table whose second date is no date. *)
Lemma to_year_unparseable_witness :
  ∃ msg,
    to_year iso_year
      {| dtypes := {[ "Release_Date" := Object ]};
         rows := [ {[ "Release_Date" := Str "2017-01-01" ]};
                   {[ "Release_Date" := Str "soon" ]} ] |}
    = Err (ValueError msg).
Proof.
  apply (to_year_unparseable iso_year _ Object (Str "soon")).
  - reflexivity.
  - unfold column. simpl. apply list_elem_of_further, list_elem_of_here.
  - reflexivity.
  - reflexivity.
Defined.

(** ** Failures of the categorizer *)

(** X11: categorizing a column the table does not have stops with a
    [KeyError] for that column. *)
Theorem catigorize_col_missing_column df col lbls :
  dtypes df !! col = None →
  catigorize_col df col lbls = Err (KeyError col).
Proof.
  intros H. unfold catigorize_col, quartile_edges, getitem. by rewrite H.
Qed.

(** X11 on the two-movie table. *)
Lemma catigorize_col_missing_column_witness :
  catigorize_col two_movies "Rating" labels = Err (KeyError "Rating").
Proof. apply catigorize_col_missing_column. reflexivity. Defined.

(** X12: categorizing a column that is not numeric, be it text or
    already categorical, stops with [KeyError("min")]: its summary has
    no minimum. *)
Theorem catigorize_col_not_numeric df col lbls d :
  dtypes df !! col = Some d → is_numeric d = false →
  catigorize_col df col lbls = Err (KeyError "min").
Proof.
  intros H Hnum. unfold catigorize_col, quartile_edges, getitem.
  rewrite H. cbn. by rewrite stat_min_KeyError.
Qed.

(** X12 on the title column of the two-movie table. *)
Lemma catigorize_col_not_numeric_witness :
  catigorize_col two_movies "Title" labels = Err (KeyError "min").
Proof. apply (catigorize_col_not_numeric _ _ _ Object); reflexivity. Defined.

(** X13: categorizing a numeric column that holds no number, for
    instance the column of an empty table, stops with a [ValueError]:
    the five boundary values are all missing. *)
Theorem catigorize_col_no_numbers df col lbls d :
  dtypes df !! col = Some d → is_numeric d = true →
  Forall (λ c, cell_num c = None) (column df col) →
  catigorize_col df col lbls
  = Err (ValueError "bins must increase monotonically.").
Proof.
  intros H Hnum Hall.
  assert (notna_values (column df col) = []) as Hnil.
  { unfold notna_values. induction Hall as [|c l Hc _ IH]; [done|].
    cbn. by rewrite Hc. }
  unfold catigorize_col, quartile_edges, getitem.
  rewrite H. cbn [mbind result_bind].
  rewrite stat_numeric_min, stat_numeric_25, stat_numeric_50,
    stat_numeric_75, stat_numeric_max by done.
  cbn [values]. fold (column df col). rewrite Hnil. reflexivity.
Qed.

(** X13 on the empty table of scores. *)
Lemma catigorize_col_no_numbers_witness :
  catigorize_col (scores []) "Vote_Average" labels
  = Err (ValueError "bins must increase monotonically.").
Proof.
  apply (catigorize_col_no_numbers _ _ _ Float64); [reflexivity..|].
  constructor.
Defined.

(** X14: when the boundary values can be read but fewer labels are
    supplied than there are bins, or two of the labels used coincide,
    the categorizer stops with a [ValueError]: trimming the label list
    only helps against too many labels. *)
Theorem catigorize_col_bad_labels df col lbls qs :
  quartile_edges df col = Ok qs →
  length lbls < length (bin_edges qs) - 1
  ∨ ¬ NoDup (take (length (bin_edges qs) - 1) lbls) →
  ∃ msg, catigorize_col df col lbls = Err (ValueError msg).
Proof.
  intros Hqs Hbad.
  destruct (quartile_edges_inv _ _ _ Hqs) as (s & Hs & Hnum & _).
  unfold catigorize_col. rewrite Hqs. cbn. rewrite Hs. cbn.
  fold (bin_edges qs). unfold cut.
  rewrite Hnum, strict_monotonic, cut_bins_kept by apply bin_edges_strict.
  cbn [negb].
  destruct (bool_decide (NoDup (take (length (bin_edges qs) - 1) lbls)))
    eqn:Hnd; cbn [negb]; [|eauto].
  apply bool_decide_eq_true in Hnd.
  destruct Hbad as [Hshort|Hdup]; [|contradiction].
  destruct (Nat.eqb_spec
              (S (length (take (length (bin_edges qs) - 1) lbls)))
              (length (bin_edges qs))) as [Heq|Hne]; cbn [negb]; [|eauto].
  rewrite length_take in Heq. lia.
Qed.

(** X14 at five distinct scores and three labels. *)
Lemma catigorize_col_bad_labels_witness :
  ∃ msg,
    catigorize_col (scores [7; 7.5; 8; 8.5; 9]%Q) "Vote_Average"
      ["low"; "mid"; "high"]
    = Err (ValueError msg).
Proof.
  apply (catigorize_col_bad_labels _ _ _ [7; 3000 # 400; 160 # 20; 3400 # 400; 9]%Q).
  - vm_compute. reflexivity.
  - left. vm_compute. lia.
Defined.

(** X15: a successful categorization touches one column only: the
    number of rows, the set of columns, and the dtype and cells of
    every other column stay as they were; the column itself becomes
    categorical, and a score that was missing stays missing. *)
Theorem catigorize_col_frame df col lbls df' :
  catigorize_col df col lbls = Ok df' →
  length (rows df') = length (rows df)
  ∧ dom (dtypes df') = dom (dtypes df)
  ∧ (∃ cats, dtypes df' !! col = Some (Category cats)
             ∧ cats `prefix_of` lbls ∧ length cats ≤ 4)
  ∧ (∀ c, c ≠ col → dtypes df' !! c = dtypes df !! c
                     ∧ column df' c = column df c)
  ∧ (∀ i : nat, column df col !! i = Some NaN →
                column df' col !! i = Some NaN).
Proof.
  intros H.
  destruct (catigorize_col_inv _ _ _ _ H)
    as (s & qs & Hs & _ & Hqs & _ & HlenL & Hd & Hr & Hcol).
  destruct (getitem_Ok _ _ _ Hs) as [Hds _].
  pose proof (quartile_edges_length _ _ _ Hqs) as H5.
  pose proof (bin_edges_length qs) as Hle.
  assert (length (column df col) = length (rows df)) as Hlc
    by (unfold column; by rewrite length_fmap).
  split; [|split; [|split; [|split]]].
  - rewrite Hr, length_zip_with_l_eq; [done|]. by rewrite length_fmap.
  - rewrite Hd. apply dom_insert_present. eauto.
  - eexists. split; [rewrite Hd; apply lookup_insert_eq|].
    split; [apply prefix_take|]. lia.
  - intros c Hc. split.
    + rewrite Hd. by apply lookup_insert_ne.
    + unfold column at 1. rewrite Hr. apply zip_insert_other; [done|].
      by rewrite length_fmap.
  - intros i Hi. rewrite Hcol, list_lookup_fmap, Hi. done.
Qed.

(** X15 on the two-movie table. *)
Lemma catigorize_col_frame_witness :
  ∃ df',
    catigorize_col two_movies "Vote_Average" labels = Ok df'
    ∧ length (rows df') = length (rows two_movies)
    ∧ column df' "Title" = column two_movies "Title".
Proof.
  assert (∃ df', catigorize_col two_movies "Vote_Average" labels = Ok df')
    as [df' H].
  { eexists. vm_compute. reflexivity. }
  destruct (catigorize_col_frame _ _ _ _ H) as (H1 & _ & _ & H2 & _).
  exists df'. split; [exact H|]. split; [exact H1|].
  by apply H2.
Defined.

(** ** The genre categories *)

Lemma insert_str_perm x l : insert_str x l ≡ₚ x :: l.
Proof.
  induction l as [|y l IH]; simpl; [done|].
  destruct (String.leb x y); [done|].
  rewrite IH. apply Permutation_swap.
Qed.

Lemma sort_str_perm l : foldr insert_str [] l ≡ₚ l.
Proof.
  induction l as [|x l IH]; simpl; [done|].
  by rewrite insert_str_perm, IH.
Qed.

Lemma insert_str_sorted x l :
  StronglySorted String.le l → StronglySorted String.le (insert_str x l).
Proof.
  induction 1 as [|y l Hs IH Hy]; simpl; [repeat constructor|].
  destruct (String.leb x y) eqn:E.
  - assert (String.le x y) as Hxy by (unfold String.le; by rewrite E).
    constructor; [by constructor|]. constructor; [done|].
    eapply Forall_impl; [exact Hy|]. intros w Hw. simpl in Hw.
    by transitivity y.
  - assert (String.le y x) as Hyx.
    { unfold String.le. destruct (String.leb_total x y) as [H|H];
        [congruence | by rewrite H]. }
    constructor; [done|]. apply Forall_forall. intros w Hw.
    rewrite insert_str_perm in Hw. apply elem_of_cons in Hw as [->|Hw]; [done|].
    rewrite Forall_forall in Hy. by apply Hy.
Qed.

Lemma sort_str_sorted l : StronglySorted String.le (foldr insert_str [] l).
Proof.
  induction l as [|x l IH]; simpl; [constructor|].
  by apply insert_str_sorted.
Qed.

(** X17: the cast of the genre column to a category leaves every cell
    of the table as it is; the categories it records are the genres
    that occur in the column, each once, in ascending order. *)
Theorem genre_categories df df' :
  genre_as_category df = Ok df' →
  length (rows df') = length (rows df)
  ∧ (∀ c, column df' c = column df c)
  ∧ ∃ cats,
      dtypes df' !! "Genre" = Some (Category cats)
      ∧ NoDup cats ∧ StronglySorted String.le cats
      ∧ ∀ t, t ∈ cats ↔ Str t ∈ column df "Genre".
Proof.
  intros H. destruct (genre_as_category_inv _ _ H) as [_ Hr].
  unfold genre_as_category in H. inv_bind H. rename a into s, Ha into Hs.
  destruct (setitem_inv _ _ _ _ H) as (_ & Hdt & _ & _).
  destruct (getitem_Ok _ _ _ Hs) as [_ Hv].
  split; [by rewrite Hr, length_fmap|]. split.
  - intros c. unfold column. rewrite Hr, <- list_fmap_compose.
    apply list_fmap_ext. intros _ r _. simpl. unfold at_col at 1.
    destruct (decide (c = "Genre")) as [->|Hne].
    + by rewrite lookup_insert_eq.
    + by rewrite lookup_insert_ne.
  - eexists. split; [rewrite Hdt; apply lookup_insert_eq|].
    simpl. split; [|split].
    + rewrite sort_str_perm. apply NoDup_remove_dups.
    + apply sort_str_sorted.
    + intros t. rewrite sort_str_perm, elem_of_remove_dups, list_elem_of_omap.
      rewrite Hv. split.
      * intros (c & Hc & Ht). destruct c; try discriminate.
        by injection Ht as ->.
      * intros Hc. exists (Str t). done.
Qed.

(** X17 on the two-movie table with its genre column as loaded. *)
Lemma genre_categories_witness :
  ∃ df' cats,
    genre_as_category two_movies = Ok df'
    ∧ dtypes df' !! "Genre" = Some (Category cats)
    ∧ NoDup cats ∧ StronglySorted String.le cats.
Proof.
  assert (∃ df', genre_as_category two_movies = Ok df') as [df' H].
  { eexists. vm_compute. reflexivity. }
  destruct (genre_categories _ _ H) as (_ & _ & cats & H1 & H2 & H3 & _).
  exists df', cats. split; [exact H|]. split; [exact H1|].
  split; [exact H2 | exact H3].
Defined.

(** ** The drop and the explosion commute *)

Lemma filter_none {A} (P : A → Prop) `{!∀ x, Decision (P x)} (l : list A) :
  Forall (λ x, ¬ P x) l → filter P l = [].
Proof.
  induction 1 as [|x l Hx _ IH]; [done|].
  by rewrite filter_cons_False.
Qed.

Lemma filter_bind_commute {A} (P P2 : A → Prop)
    `{!∀ x, Decision (P x), !∀ x, Decision (P2 x)}
    (g : A → list A) (l : list A) :
  (∀ r, r ∈ l → ∀ r', r' ∈ g r → (P2 r' ↔ P r)) →
  filter P2 (l ≫= g) = filter P l ≫= g.
Proof.
  induction l as [|r l IH]; intros Hiff; [done|].
  rewrite bind_cons, filter_app, IH.
  - destruct (decide (P r)) as [Hr|Hr].
    + rewrite (filter_cons_True P) by done. rewrite bind_cons. f_equal.
      apply filter_all, Forall_forall. intros r' Hr'.
      apply (Hiff r); [apply list_elem_of_here | done | done].
    + rewrite (filter_cons_False P) by done.
      rewrite filter_none; [done|]. apply Forall_forall. intros r' Hr' H2.
      apply Hr. apply (Hiff r (list_elem_of_here _ _) r' Hr'). done.
  - intros r0 Hr0. apply Hiff. by apply list_elem_of_further.
Qed.

Lemma at_col_Str (c : string) (r : gmap string cell) (g : string) :
  at_col c r = Str g → r !! c = Some (Str g).
Proof. unfold at_col. destruct (r !! c); simpl; [by intros ->|done]. Qed.

(** A row made by splitting and exploding has a missing value exactly
    when the record it comes from has one. *)
Lemma exploded_row_isna df d2 (r r' : gmap string cell) :
  dom (dtypes d2) = dom (dtypes df) →
  "Genre" ∈ dom (dtypes df) →
  text_or_missing (at_col "Genre" r) →
  r' ∈ explode_row "Genre" (<["Genre" := split_cell (at_col "Genre" r)]> r) →
  row_isna d2 r' = false ↔ row_isna df r = false.
Proof.
  intros Hdom HG Htext Hr'. rewrite !row_isna_false, Hdom.
  destruct Htext as [Hna|[g Hg]].
  - rewrite Hna in Hr'. simpl in Hr'. unfold explode_row, at_col in Hr'.
    rewrite lookup_insert_eq in Hr'. simpl in Hr'.
    apply list_elem_of_singleton in Hr' as ->.
    split; intros H; destruct (H "Genre" HG) as (v & Hv & Hv').
    + rewrite lookup_insert_eq in Hv. injection Hv as <-. discriminate.
    + unfold at_col in Hna. rewrite Hv in Hna. simpl in Hna.
      rewrite Hna in Hv'. discriminate.
  - apply at_col_Str in Hg as Hg'.
    rewrite (explode_split_row r g Hg') in Hr'.
    apply list_elem_of_fmap in Hr' as (t & -> & _).
    split; intros H c Hc; destruct (decide (c = "Genre")) as [->|Hne].
    + exists (Str g). done.
    + specialize (H c Hc). by rewrite lookup_insert_ne in H.
    + exists (Str t). by rewrite lookup_insert_eq.
    + rewrite lookup_insert_ne by done. by apply H.
Qed.

(** X18: on a genre column of text or missing values it makes no
    difference to the table whether rows with missing values are
    dropped before the genre is split and exploded, as the script does,
    or afterwards. *)
Theorem dropna_explode_commute df d1 d2 :
  Forall text_or_missing (column df "Genre") →
  split_genre df = Ok d1 → explode d1 "Genre" = Ok d2 →
  ∃ e1, split_genre (dropna df) = Ok e1
        ∧ explode e1 "Genre" = Ok (dropna d2).
Proof.
  intros Htext H1 H2.
  destruct (split_genre_inv _ _ H1) as (d & Hd & Hnum & Hdt1 & Hr1).
  destruct (explode_inv _ _ _ H2) as (_ & Hdt2 & Hr2).
  destruct (split_genre_Ok (dropna df) d Hd Hnum) as (e1 & He1 & Hdte & Hre).
  exists e1. split; [done|].
  rewrite explode_Ok by (rewrite Hdte, lookup_insert_eq; eauto).
  f_equal. unfold dropna.
  assert (dtypes e1 = dtypes d2) as -> by (rewrite Hdte, Hdt2, Hdt1; done).
  f_equal. rewrite Hre, Hr2, Hr1, !list_fmap_bind. simpl.
  symmetry. apply filter_bind_commute.
  intros r Hr r' Hr'. simpl in Hr'.
  apply (exploded_row_isna df d2 r r'); try done.
  - rewrite Hdt2, Hdt1. apply dom_insert_present. eauto.
  - apply elem_of_dom. eauto.
  - unfold column in Htext. rewrite Forall_fmap, Forall_forall in Htext.
    by apply Htext.
Qed.

(** X18 on a table of three movies, the second without a genre. *)
Lemma dropna_explode_commute_witness :
  ∃ d1 d2 e1,
    split_genre genre_gap = Ok d1 ∧ explode d1 "Genre" = Ok d2
    ∧ split_genre (dropna genre_gap) = Ok e1
    ∧ explode e1 "Genre" = Ok (dropna d2).
Proof.
  destruct (split_genre_Ok genre_gap Object) as (d1 & H1 & Hdt & _);
    [reflexivity..|].
  assert (is_Some (dtypes d1 !! "Genre")) as Hsome.
  { rewrite Hdt, lookup_insert_eq. eauto. }
  pose proof (explode_Ok d1 "Genre" Hsome) as H2.
  edestruct (dropna_explode_commute genre_gap d1) as (e1 & H3 & H4);
    [|exact H1|exact H2|].
  - unfold column, genre_gap. simpl.
    constructor; [right; eexists; reflexivity|].
    constructor; [by left|].
    constructor; [right; eexists; reflexivity|]. constructor.
  - eexists d1, _, e1. split; [exact H1|]. split; [exact H2|].
    split; [exact H3 | exact H4].
Defined.

(** ** The popularity queries, again *)

Lemma popularity_query_unfold pick df d :
  dtypes df !! "Popularity" = Some d → is_numeric d = true →
  popularity_query pick df
  = Ok {| dtypes := dtypes df;
          rows := filter (λ r, float_eqb (at_col "Popularity" r)
                                 (pick (notna_values (column df "Popularity")))
                               = true) (rows df) |}.
Proof.
  intros Hd Hnum. unfold popularity_query, getitem. rewrite Hd. cbn.
  by rewrite Hnum.
Qed.

Lemma popularity_query_inv pick df out :
  popularity_query pick df = Ok out →
  ∃ d, dtypes df !! "Popularity" = Some d ∧ is_numeric d = true.
Proof.
  unfold popularity_query, getitem.
  destruct (dtypes df !! "Popularity") as [d|]; [|discriminate]. cbn.
  destruct (is_numeric d) eqn:E; [eauto | discriminate].
Qed.

Lemma float_eqb_true (a b : cell) :
  float_eqb a b = true ↔ ∃ x y, a = Num x ∧ b = Num y ∧ (x == y)%Q.
Proof.
  unfold float_eqb. split.
  - destruct a; simpl; try discriminate. destruct b; simpl; try discriminate.
    intros H. apply Qeq_bool_iff in H. eauto.
  - intros (x & y & -> & -> & H). simpl. by apply Qeq_bool_iff.
Qed.

Lemma popularity_query_empty pick df d :
  pick [] = NaN →
  (∀ xs, xs ≠ [] → ∃ m, pick xs = Num m ∧ m ∈ xs) →
  dtypes df !! "Popularity" = Some d → is_numeric d = true →
  ∃ out, popularity_query pick df = Ok out
         ∧ (rows out = [] ↔ ∀ r, r ∈ rows df → popularity r = None).
Proof.
  intros Hnil Hpick Hd Hnum. rewrite (popularity_query_unfold pick df d) by done.
  eexists. split; [reflexivity|]. simpl.
  set (xs := notna_values (column df "Popularity")).
  destruct (decide (xs = [])) as [E|Hne].
  - rewrite E, Hnil. split.
    + intros _ r Hr. destruct (popularity r) as [p|] eqn:Hp; [|done].
      assert (p ∈ xs) as Hin by (apply popularity_values; eauto).
      rewrite E in Hin. by apply elem_of_nil in Hin.
    + intros _. apply filter_none, Forall_forall. intros r _ H.
      apply float_eqb_true in H as (? & ? & _ & ? & _). discriminate.
  - destruct (Hpick xs Hne) as (m & Hm & Hin). rewrite Hm.
    apply popularity_values in Hin as (r & Hr & Hp).
    assert (r ∈ filter (λ r, float_eqb (at_col "Popularity" r) (Num m) = true)
                  (rows df)) as Hf.
    { apply list_elem_of_filter. split; [|done].
      apply float_eqb_true. exists m, m. split; [|split; [done|reflexivity]].
      by apply cell_num_Some. }
    split.
    + intros E. rewrite E in Hf. by apply elem_of_nil in Hf.
    + intros Hall. rewrite (Hall r Hr) in Hp. discriminate.
Qed.

Lemma popularity_query_idem pick df out :
  (∀ xs, xs ≠ [] → ∃ m, pick xs = Num m ∧ m ∈ xs) →
  popularity_query pick df = Ok out → popularity_query pick out = Ok out.
Proof.
  intros Hpick H. destruct (popularity_query_inv _ _ _ H) as (d & Hd & Hnum).
  rewrite (popularity_query_unfold pick df d) in H by done.
  injection H as <-.
  rewrite (popularity_query_unfold pick _ d) by done. simpl. f_equal. f_equal.
  set (m0 := pick (notna_values (column df "Popularity"))).
  set (kept := filter (λ r, float_eqb (at_col "Popularity" r) m0 = true)
                      (rows df)).
  apply filter_all, Forall_forall. intros r Hr.
  pose proof Hr as Hr0. apply list_elem_of_filter in Hr0 as [Hm _].
  apply float_eqb_true in Hm as (x & m & Hx & Hm0 & Hxm).
  set (xs' := notna_values
                (column {| dtypes := dtypes df; rows := kept |} "Popularity")).
  assert (x ∈ xs') as Hin.
  { apply notna_values_elem. unfold column. simpl.
    apply list_elem_of_fmap. exists r. by rewrite Hx. }
  assert (xs' ≠ []) as Hne
    by (intros E; rewrite E in Hin; by apply elem_of_nil in Hin).
  destruct (Hpick xs' Hne) as (m' & Hm' & Hin'). rewrite Hm'.
  apply notna_values_elem in Hin'. unfold column in Hin'. simpl in Hin'.
  apply list_elem_of_fmap in Hin' as (r2 & Hr2 & Hk).
  apply list_elem_of_filter in Hk as [Hm2 _].
  apply float_eqb_true in Hm2 as (x2 & m2 & Hx2 & Hm02 & Hxm2).
  rewrite <- Hr2 in Hx2. injection Hx2 as <-.
  rewrite Hm0 in Hm02. injection Hm02 as <-.
  apply float_eqb_true. exists x, m'. split; [done|]. split; [done|].
  by rewrite Hxm, Hxm2.
Qed.

Lemma nanmax_elem xs : xs ≠ [] → ∃ m, nanmax xs = Num m ∧ m ∈ xs.
Proof. intros H. destruct (nanmax_spec xs H) as (m & ? & ? & _). eauto. Qed.

Lemma nanmin_elem xs : xs ≠ [] → ∃ m, nanmin xs = Num m ∧ m ∈ xs.
Proof. intros H. destruct (nanmin_spec xs H) as (m & ? & ? & _). eauto. Qed.

(** X19: on a numeric popularity column both queries return, and their
    result is empty exactly when no record of the table has a
    popularity, as in an empty table; otherwise each names at least one
    record. *)
Theorem popularity_result_empty df d :
  dtypes df !! "Popularity" = Some d → is_numeric d = true →
  ∃ hi lo,
    highest_popularity df = Ok hi ∧ lowest_popularity df = Ok lo
    ∧ (rows hi = [] ↔ ∀ r, r ∈ rows df → popularity r = None)
    ∧ (rows lo = [] ↔ ∀ r, r ∈ rows df → popularity r = None).
Proof.
  intros Hd Hnum.
  destruct (popularity_query_empty nanmax df d) as (hi & Hhi & Ehi);
    [done | apply nanmax_elem | done | done |].
  destruct (popularity_query_empty nanmin df d) as (lo & Hlo & Elo);
    [done | apply nanmin_elem | done | done |].
  exists hi, lo. done.
Qed.

(** X19 on a table of popularities without rows. *)
Lemma popularity_result_empty_witness :
  ∃ hi, highest_popularity
          {| dtypes := {[ "Popularity" := Float64 ]}; rows := [] |} = Ok hi
        ∧ rows hi = [].
Proof.
  destruct (popularity_result_empty
              {| dtypes := {[ "Popularity" := Float64 ]}; rows := [] |} Float64)
    as (hi & lo & Hhi & _ & Ehi & _); [reflexivity..|].
  exists hi. split; [exact Hhi|]. apply Ehi.
  intros r Hr. simpl in Hr. by apply elem_of_nil in Hr.
Defined.

(** X20: asking again changes nothing: the highest-popularity query
    applied to its own result returns that result, and so does the
    lowest-popularity query. *)
Theorem popularity_query_again df out :
  (highest_popularity df = Ok out → highest_popularity out = Ok out)
  ∧ (lowest_popularity df = Ok out → lowest_popularity out = Ok out).
Proof.
  split; apply popularity_query_idem; [apply nanmax_elem | apply nanmin_elem].
Qed.

(** ** Counting duplicates *)

Lemma duplicated_none df (seen l : list (gmap string cell)) :
  filter (λ b, b = true) (duplicated df seen l) = []
  ↔ ∀ (j : nat) rj, l !! j = Some rj →
      (∀ r, r ∈ seen → row_eqb df rj r = false)
      ∧ ∀ (i : nat) ri, i < j → l !! i = Some ri → row_eqb df rj ri = false.
Proof.
  revert seen. induction l as [|r l IH]; intros seen.
  - split; [|done]. intros _ j rj Hj. by rewrite lookup_nil in Hj.
  - cbn [duplicated]. rewrite filter_cons.
    destruct (existsb (row_eqb df r) seen) eqn:E.
    + rewrite decide_True by done. split; [done|]. intros H. exfalso.
      apply existsb_exists in E as (r0 & Hr0 & Heq).
      destruct (H 0 r eq_refl) as [Hs _].
      apply list_elem_of_In in Hr0. rewrite (Hs r0 Hr0) in Heq. discriminate.
    + rewrite decide_False by done. rewrite IH. split.
      * intros H j rj Hj. destruct j as [|j]; simpl in Hj.
        -- injection Hj as <-. split; [|intros i ri Hi; lia].
           intros r0 Hr0. destruct (row_eqb df r r0) eqn:Er; [|done].
           assert (existsb (row_eqb df r) seen = true) as Ht; [|congruence].
           apply existsb_exists. exists r0. split; [|done].
           by apply list_elem_of_In.
        -- destruct (H j rj Hj) as [Hs He]. split.
           ++ intros r0 Hr0. apply Hs. by apply list_elem_of_further.
           ++ intros i ri Hi Hri. destruct i as [|i]; simpl in Hri.
              ** injection Hri as <-. apply Hs, list_elem_of_here.
              ** apply (He i); [lia | done].
      * intros H j rj Hj. destruct (H (S j) rj Hj) as [Hs He]. split.
        -- intros r0 Hr0. apply elem_of_cons in Hr0 as [->|Hr0].
           ++ apply (He 0); [lia | done].
           ++ by apply Hs.
        -- intros i ri Hi Hri. apply (He (S i)); [lia | done].
Qed.

(** X21: the number of duplicates the inspector reports is zero exactly
    when no row of the table equals an earlier row. *)
Theorem duplicated_sum_zero df :
  duplicated_sum df = 0
  ↔ ∀ (i j : nat) ri rj,
      i < j → rows df !! i = Some ri → rows df !! j = Some rj →
      row_eqb df rj ri = false.
Proof.
  unfold duplicated_sum. rewrite length_zero_iff_nil, duplicated_none.
  split.
  - intros H i j ri rj Hij Hi Hj. destruct (H j rj Hj) as [_ He]. eauto.
  - intros H j rj Hj. split.
    + intros r Hr. by apply elem_of_nil in Hr.
    + intros i ri Hij Hi. eauto.
Qed.

(** ** The most frequent genre *)

Lemma cell_eqb_refl (c : cell) : cell_eqb c c = true.
Proof.
  destruct c; simpl; try done.
  - apply Qeq_bool_iff. reflexivity.
  - by apply bool_decide_eq_true.
  - by apply bool_decide_eq_true.
Qed.

Lemma Qeq_bool_congr (p q r : Q) :
  Qeq_bool p q = true → Qeq_bool p r = Qeq_bool q r.
Proof.
  intros H. apply Qeq_bool_iff in H.
  destruct (Qeq_bool q r) eqn:E.
  - apply Qeq_bool_iff in E. apply Qeq_bool_iff. by rewrite H.
  - destruct (Qeq_bool p r) eqn:E'; [|done].
    apply Qeq_bool_iff in E'.
    assert (Qeq_bool q r = true) as Ht; [|congruence].
    apply Qeq_bool_iff. by rewrite <- H.
Qed.

Lemma cell_eqb_congr (c d e : cell) :
  cell_eqb c d = true → cell_eqb c e = cell_eqb d e.
Proof.
  destruct c, d; simpl; try discriminate; intros H.
  - done.
  - destruct e; try done. simpl. by apply Qeq_bool_congr.
  - apply bool_decide_eq_true in H as ->. done.
  - apply bool_decide_eq_true in H as ->. done.
Qed.

Lemma count_cell_congr (c d : cell) (l : list cell) :
  cell_eqb c d = true → count_cell c l = count_cell d l.
Proof.
  intros H. unfold count_cell. f_equal.
  apply list_filter_iff. intros e. by rewrite (cell_eqb_congr c d e H).
Qed.

Lemma distinct_cells_elem (c : cell) (l : list cell) :
  c ∈ distinct_cells l → c ∈ l.
Proof.
  induction l as [|a l IH]; [done|]. cbn [distinct_cells].
  rewrite !elem_of_cons, list_elem_of_filter. intros [->|[_ H]]; auto.
Qed.

Lemma distinct_cells_covers (c : cell) (l : list cell) :
  c ∈ l → ∃ d, d ∈ distinct_cells l ∧ cell_eqb d c = true.
Proof.
  induction l as [|a l IH]; [by rewrite elem_of_nil|].
  rewrite elem_of_cons. cbn [distinct_cells]. intros [->|Hc].
  - exists a. split; [apply list_elem_of_here | apply cell_eqb_refl].
  - destruct (IH Hc) as (d & Hd & Hdc).
    destruct (cell_eqb a d) eqn:E.
    + exists a. split; [apply list_elem_of_here|].
      by rewrite (cell_eqb_congr a d c E).
    + exists d. split; [|done]. apply list_elem_of_further.
      by apply list_elem_of_filter.
Qed.

Lemma top_freq_fold (l ds : list cell) :
  let best := foldr (λ c best, if Nat.ltb (count_cell c l) (snd best) then best
                               else (c, count_cell c l)) (NaN, 0) ds in
  (∀ d, d ∈ ds → count_cell d l ≤ snd best)
  ∧ (ds ≠ [] → fst best ∈ ds ∧ snd best = count_cell (fst best) l).
Proof.
  induction ds as [|c ds IH]; cbn zeta.
  - split; [|done]. intros d Hd. by apply elem_of_nil in Hd.
  - cbn [foldr]. cbn zeta in IH. destruct IH as [IH1 IH2].
    set (best := foldr _ _ ds) in *.
    destruct (Nat.ltb_spec (count_cell c l) (snd best)) as [Hlt|Hge].
    + split.
      * intros d Hd. apply elem_of_cons in Hd as [->|Hd]; [lia | by apply IH1].
      * intros _. destruct ds as [|c' ds'].
        { simpl in Hlt. lia. }
        destruct IH2 as [Hin Heq]; [done|].
        split; [by apply list_elem_of_further | done].
    + split.
      * intros d Hd. simpl.
        apply elem_of_cons in Hd as [->|Hd]; [lia|].
        specialize (IH1 d Hd). lia.
      * intros _. simpl. split; [apply list_elem_of_here | done].
Qed.

(** X23: in the summary of a column that is not numeric, [top] is one
    of the values present, [freq] is the number of times it occurs, and
    no value of the column occurs more often. *)
Theorem describe_top_most_frequent s :
  is_numeric (dtype_of s) = false →
  filter (λ c, isna c = false) (values s) ≠ [] →
  ∃ top n,
    describe s !! "top" = Some top ∧ describe s !! "freq" = Some (of_nat n)
    ∧ top ∈ values s ∧ isna top = false
    ∧ n = count_cell top (filter (λ c, isna c = false) (values s))
    ∧ ∀ c, c ∈ values s → isna c = false →
           count_cell c (filter (λ c, isna c = false) (values s)) ≤ n.
Proof.
  intros Hnum Hne. set (xs := filter (λ c, isna c = false) (values s)) in *.
  exists (fst (top_freq xs)), (snd (top_freq xs)).
  unfold describe. rewrite Hnum. fold xs.
  split; [by simplify_map_eq|]. split; [by simplify_map_eq|].
  destruct (top_freq_fold xs (distinct_cells xs)) as [Hmax Htop].
  cbn zeta in Hmax, Htop. fold (top_freq xs) in Hmax, Htop.
  destruct Htop as [Hin Hcount].
  { destruct xs as [|x xs']; [done | discriminate]. }
  apply distinct_cells_elem in Hin.
  pose proof Hin as Hin'. apply list_elem_of_filter in Hin' as [Hna Hv].
  split; [done|]. split; [done|]. split; [done|].
  intros c Hc Hcna.
  assert (c ∈ xs) as Hcx by (by apply list_elem_of_filter).
  destruct (distinct_cells_covers c xs Hcx) as (d & Hd & Hdc).
  rewrite <- (count_cell_congr d c xs Hdc). by apply Hmax.
Qed.

(** X23 on a genre column in which Drama occurs twice. *)
Lemma describe_top_most_frequent_witness :
  ∃ top n,
    describe {| dtype_of := Object;
                values := [Str "Drama"; Str "Comedy"; Str "Drama"] |}
      !! "top" = Some top
    ∧ n = count_cell top [Str "Drama"; Str "Comedy"; Str "Drama"].
Proof.
  destruct (describe_top_most_frequent
              {| dtype_of := Object;
                 values := [Str "Drama"; Str "Comedy"; Str "Drama"] |})
    as (top & n & H1 & _ & _ & _ & H2 & _).
  - reflexivity.
  - discriminate.
  - exists top, n. split; [exact H1 | exact H2].
Defined.

(** ** When the script runs through *)

Lemma year_cells_exist parse (cs : list cell) :
  Forall (λ c, isna c = true ∨ is_Some (parse c)) cs →
  ∃ ys, Forall2 (λ c y, year_cell parse c = Ok y) cs ys.
Proof.
  induction 1 as [|c cs Hc _ [ys IH]]; [by exists []|].
  exists (year_of parse c :: ys). constructor; [|done].
  unfold year_cell, year_of. destruct (isna c); [done|].
  destruct Hc as [|[y Hy]]; [done|]. by rewrite Hy.
Qed.

(** The table after the date conversion, the column drop and the
    categorization, record by record. *)
Lemma first_steps_spec parse df mid :
  run parse [ToYear; DropColumns; Categorize] df = Ok mid →
  ∃ dt cats ys vs,
    Forall2 (λ c y, year_cell parse c = Ok y) (column df "Release_Date") ys
    ∧ Forall (λ v, v = NaN ∨ ∃ l, l ∈ labels ∧ v = Str l) vs
    ∧ dtypes mid
      = <["Vote_Average" := Category cats]>
          (foldr delete (<["Release_Date" := dt]> (dtypes df)) cols)
    ∧ rows mid
      = zip_with (λ r v, <["Vote_Average" := v]> r)
          ((λ r, foldr delete r cols)
             <$> zip_with (λ r v, <["Release_Date" := v]> r) (rows df) ys)
          vs.
Proof.
  simpl. intros H.
  inv_bind H. rename a into d1, Ha into H1.
  inv_bind H. rename a into d2, Ha into H2.
  inv_bind H. rename a into d3, Ha into H3.
  injection H as <-.
  apply to_year_spec in H1 as (d & ys & Hd & Hys & ->).
  destruct (drop_inv _ _ _ H2) as [D2 R2]. cbn [dtypes rows] in D2, R2.
  destruct (catigorize_col_inv _ _ _ _ H3)
    as (s3 & qs & _ & _ & _ & _ & _ & D3 & R3 & _).
  exists (if existsb isna ys then Float64 else Int64),
    (take (length (bin_edges qs) - 1) labels), ys,
    (binned (bin_edges qs) (take (length (bin_edges qs) - 1) labels)
       <$> column d2 "Vote_Average").
  split; [done|]. split; [|split].
  - rewrite Forall_fmap. apply Forall_forall. intros c _. simpl.
    unfold binned, take_label. destruct (bin_id _ _ c) as [|k]; [by left|].
    destruct (take _ labels !! k) as [l|] eqn:Hl; [|by left].
    right. exists l. split; [|done].
    apply list_elem_of_lookup_2 in Hl.
    eapply elem_of_sublist; [exact Hl | apply sublist_take].
  - rewrite D3, D2. done.
  - rewrite R3, R2. done.
Qed.

Lemma catigorize_col_labels_Ok df d x :
  dtypes df !! "Vote_Average" = Some d → is_numeric d = true →
  Num x ∈ column df "Vote_Average" →
  ∃ df', catigorize_col df "Vote_Average" labels = Ok df'.
Proof.
  intros Hd Hnum Hx.
  set (s := {| dtype_of := d; values := column df "Vote_Average" |}).
  assert (getitem df "Vote_Average" = Ok s) as Hs
    by (unfold getitem; by rewrite Hd).
  destruct (quartile_edges_spec df "Vote_Average" s Hs Hnum)
    as (mn & q1 & q2 & q3 & mx & Hqs & _).
  { simpl. intros E. apply notna_values_elem in Hx. rewrite E in Hx.
    by apply elem_of_nil in Hx. }
  apply (catigorize_col_Ok df "Vote_Average" labels s _ Hs Hnum Hqs);
    [done| |].
  - apply NoDup_take_prefix.
    apply (bool_decide_eq_true_1 (NoDup labels)). reflexivity.
  - pose proof (bin_edges_length [mn; q1; q2; q3; mx]) as Hle.
    change (length labels) with 4. simpl in Hle. lia.
Qed.

Lemma genre_as_category_Ok df :
  is_Some (dtypes df !! "Genre") → ∃ df', genre_as_category df = Ok df'.
Proof.
  intros [d Hd]. unfold genre_as_category, getitem. rewrite Hd. cbn.
  unfold setitem. cbn. rewrite length_fmap, Nat.eqb_refl. eauto.
Qed.

(** The first three statements run through exactly on the tables that
    have what they read. *)
Lemma first_steps_Ok parse df :
  is_Some (dtypes df !! "Release_Date") →
  Forall (λ c, isna c = true ∨ is_Some (parse c)) (column df "Release_Date") →
  Forall (λ c, is_Some (dtypes df !! c)) cols →
  (∃ d, dtypes df !! "Vote_Average" = Some d ∧ is_numeric d = true) →
  (∃ x, Num x ∈ column df "Vote_Average") →
  ∃ mid, run parse [ToYear; DropColumns; Categorize] df = Ok mid.
Proof.
  intros [d0 Hd0] Hdates Hcols (d & Hd & Hnum) [x Hx].
  destruct (year_cells_exist parse _ Hdates) as [ys Hys].
  assert (length ys = length (rows df)) as Hlen.
  { rewrite <- (Forall2_length _ _ _ Hys). unfold column.
    by rewrite length_fmap. }
  cbn [run exec].
  rewrite (proj2 (to_year_spec parse df _)
             (ex_intro _ d0 (ex_intro _ ys (conj Hd0 (conj Hys eq_refl))))).
  cbn [mbind result_bind].
  rewrite drop_Ok.
  2:{ cbn [dtypes]. apply Forall_forall. intros c Hc.
      rewrite Forall_forall in Hcols.
      apply lookup_insert_is_Some'. right. by apply Hcols. }
  cbn [mbind result_bind].
  edestruct (catigorize_col_labels_Ok) as [mid ->]; [| exact Hnum | | by eexists].
  - cbn [dtypes]. rewrite lookup_foldr_delete_ne by (apply not_in_cols; auto).
    rewrite lookup_insert_ne by done. exact Hd.
  - unfold column. cbn [rows].
    rewrite <- list_fmap_compose.
    erewrite list_fmap_ext; [|intros i r _; simpl;
      apply (at_col_foldr_delete "Vote_Average" cols r), not_in_cols; auto].
    rewrite zip_insert_other by done. exact Hx.
Qed.

Lemma first_steps_inv parse df mid :
  run parse [ToYear; DropColumns; Categorize] df = Ok mid →
  is_Some (dtypes df !! "Release_Date")
  ∧ Forall (λ c, isna c = true ∨ is_Some (parse c)) (column df "Release_Date")
  ∧ Forall (λ c, is_Some (dtypes df !! c)) cols
  ∧ (∃ d, dtypes df !! "Vote_Average" = Some d ∧ is_numeric d = true)
  ∧ (∃ x, Num x ∈ column df "Vote_Average").
Proof.
  simpl. intros H.
  inv_bind H. rename a into d1, Ha into H1.
  inv_bind H. rename a into d2, Ha into H2.
  inv_bind H. rename a into d3, Ha into H3.
  apply to_year_spec in H1 as (d & ys & Hd & Hys & ->).
  assert (length ys = length (rows df)) as Hlen.
  { rewrite <- (Forall2_length _ _ _ Hys). unfold column.
    by rewrite length_fmap. }
  split; [eauto|]. split; [|split].
  - eapply Forall2_Forall_l; [exact Hys|]. apply Forall_forall.
    intros c _ y Hy. by apply year_cell_Ok in Hy as [? _].
  - apply Forall_forall. intros c Hc.
    destruct (cols_elem c Hc) as (Hne & _ & _).
    destruct (dtypes df !! c) as [dc|] eqn:E; [eauto|]. exfalso.
    unfold drop in H2. simpl in H2.
    destruct (filter _ cols) as [|c' l] eqn:Ef; [|discriminate].
    assert (c ∈ filter (λ c, <["Release_Date" :=
                if existsb isna ys then Float64 else Int64]> (dtypes df) !! c
              = None) cols) as Hin.
    { apply list_elem_of_filter. split; [|done]. by rewrite lookup_insert_ne. }
    rewrite Ef in Hin. by apply elem_of_nil in Hin.
  - destruct (drop_inv _ _ _ H2) as [D2 R2]. cbn [dtypes rows] in D2, R2.
    destruct (catigorize_col_inv _ _ _ _ H3)
      as (s & qs & Hs & Hnum & Hqs & _).
    destruct (quartile_edges_inv _ _ _ Hqs) as (s' & Hs' & _ & Hne).
    rewrite Hs in Hs'. injection Hs' as <-.
    destruct (getitem_Ok _ _ _ Hs) as [Hdt Hv].
    assert (column d2 "Vote_Average" = column df "Vote_Average") as Hcol.
    { unfold column. rewrite R2, <- list_fmap_compose.
      erewrite list_fmap_ext; [|intros i r _; simpl;
        apply (at_col_foldr_delete "Vote_Average" cols r), not_in_cols; auto].
      by rewrite zip_insert_other. }
    split.
    + exists (dtype_of s). split; [|done].
      rewrite D2, lookup_foldr_delete_ne in Hdt by (apply not_in_cols; auto).
      by rewrite lookup_insert_ne in Hdt.
    + rewrite Hv, Hcol in Hne.
      destruct (notna_values (column df "Vote_Average")) as [|x l] eqn:E;
        [done|].
      exists x. apply notna_values_elem. rewrite E. apply list_elem_of_here.
Qed.

Lemma first_steps_genre parse df mid :
  run parse [ToYear; DropColumns; Categorize] df = Ok mid →
  dtypes mid !! "Genre" = dtypes df !! "Genre".
Proof.
  intros H. destruct (first_steps_spec _ _ _ H)
    as (dt & cats & ys & vs & _ & _ & -> & _).
  rewrite lookup_insert_ne by done.
  rewrite lookup_foldr_delete_ne by (apply not_in_cols; auto).
  by rewrite lookup_insert_ne.
Qed.

(** X24: the cleaning part of the script runs through exactly on the
    tables that have a release-date column all of whose dates parse,
    the three columns to drop, a numeric score column with at least one
    number in it, and a genre column that is not numeric. *)
Theorem pipeline_runs parse df :
  (∃ out, pipeline parse df = Ok out) ↔ runnable parse df.
Proof.
  split.
  - intros [out H].
    destruct (pipeline_stages _ _ _ H) as (mid & d5 & d6 & Hmid & H5 & _).
    destruct (first_steps_inv _ _ _ Hmid) as (A1 & A2 & A3 & A4 & A5).
    repeat (split; [done|]).
    destruct (split_genre_inv _ _ H5) as (d & Hd & Hnum & _).
    simpl in Hd. rewrite (first_steps_genre _ _ _ Hmid) in Hd. eauto.
  - intros (A1 & A2 & A3 & A4 & A5 & d & Hd & Hnum).
    destruct (first_steps_Ok parse df A1 A2 A3 A4 A5) as [mid Hmid].
    destruct (split_genre_Ok (dropna mid) d) as (d5 & H5 & Hdt5 & _);
      [simpl; by rewrite (first_steps_genre _ _ _ Hmid) | done |].
    assert (is_Some (dtypes d5 !! "Genre")) as Hsome
      by (rewrite Hdt5, lookup_insert_eq; eauto).
    destruct (genre_as_category_Ok
                {| dtypes := dtypes d5;
                   rows := rows d5 ≫= explode_row "Genre" |} Hsome)
      as [out Hout].
    exists out. unfold pipeline, script.
    change [ToYear; DropColumns; Categorize; DropNa; SplitGenre; ExplodeGenre;
            GenreAsCategory]
      with ([ToYear; DropColumns; Categorize]
            ++ [DropNa; SplitGenre; ExplodeGenre; GenreAsCategory]).
    rewrite run_app, Hmid. cbn [mbind result_bind run exec].
    rewrite H5. cbn [mbind result_bind].
    rewrite (explode_Ok d5 "Genre" Hsome). cbn [mbind result_bind].
    rewrite Hout. done.
Qed.

(** ** The cleaned records *)

Lemma genre_steps_rows d4 d5 d6 out (r : gmap string cell) :
  split_genre d4 = Ok d5 → explode d5 "Genre" = Ok d6 →
  genre_as_category d6 = Ok out →
  r ∈ rows out →
  ∃ r0, r0 ∈ rows d4 ∧ ∀ c, c ≠ "Genre" → r !! c = r0 !! c.
Proof.
  intros H5 H6 H7 Hr.
  destruct (split_genre_inv _ _ H5) as (_ & _ & _ & _ & R5).
  destruct (explode_inv _ _ _ H6) as (_ & _ & R6).
  destruct (genre_as_category_inv _ _ H7) as [_ R7].
  rewrite R7 in Hr. apply list_elem_of_fmap in Hr as (r6 & -> & Hr6).
  rewrite R6 in Hr6. apply list_elem_of_bind in Hr6 as (r5 & Hr6 & Hr5).
  rewrite R5 in Hr5. apply list_elem_of_fmap in Hr5 as (r0 & -> & Hr0).
  exists r0. split; [done|]. intros c Hc.
  rewrite lookup_insert_ne by done.
  destruct (explode_row_spec "Genre"
              (<["Genre" := split_cell (at_col "Genre" r0)]> r0)) as [_ Hsame].
  rewrite (Hsame r6 Hr6 c Hc). by rewrite lookup_insert_ne.
Qed.

(** X25: whatever the table, every record of the table the cleaning
    part hands on carries one of the four labels as its score and a
    year as its release date, and has none of the three dropped
    columns. *)
Theorem pipeline_rows_cleaned parse df out :
  pipeline parse df = Ok out → Forall cleaned (rows out).
Proof.
  intros H. apply Forall_forall. intros r Hr.
  destruct (pipeline_stages _ _ _ H) as (mid & d5 & d6 & Hmid & H5 & H6 & H7).
  destruct (genre_steps_rows _ _ _ _ r H5 H6 H7 Hr) as (r0 & Hr0 & Hsame).
  simpl in Hr0. apply list_elem_of_filter in Hr0 as [Hna Hr0].
  destruct (first_steps_spec _ _ _ Hmid)
    as (dt & cats & ys & vs & Hys & Hvs & Hdt & Hrows).
  rewrite Hrows in Hr0.
  apply elem_of_zip_insert in Hr0 as (r2 & v & Hr2 & Hv & ->).
  apply list_elem_of_fmap in Hr2 as (r1 & -> & Hr1).
  apply elem_of_zip_insert in Hr1 as (r00 & y & _ & Hy & ->).
  pose proof (proj1 (row_isna_false mid _) Hna) as Hfull.
  rewrite Hdt in Hfull.
  split; [|split].
  - rewrite Hsame by done. rewrite lookup_insert_eq.
    destruct (Hfull "Vote_Average") as (v' & Hv' & Hv'na).
    { rewrite dom_insert_L. apply elem_of_union_l, elem_of_singleton. done. }
    rewrite lookup_insert_eq in Hv'. injection Hv' as <-.
    rewrite Forall_forall in Hvs.
    destruct (Hvs v Hv) as [->|(l & Hl & ->)]; [done | eauto].
  - rewrite Hsame by done. rewrite lookup_insert_ne by done.
    rewrite lookup_foldr_delete_ne by (apply not_in_cols; auto).
    rewrite lookup_insert_eq.
    destruct (Hfull "Release_Date") as (y' & Hy' & Hy'na).
    { apply elem_of_dom. rewrite lookup_insert_ne by done.
      rewrite lookup_foldr_delete_ne by (apply not_in_cols; auto).
      rewrite lookup_insert_eq. eauto. }
    rewrite lookup_insert_ne in Hy' by done.
    rewrite lookup_foldr_delete_ne in Hy' by (apply not_in_cols; auto).
    rewrite lookup_insert_eq in Hy'. injection Hy' as <-.
    apply list_elem_of_lookup_1 in Hy as [i Hi].
    destruct (Forall2_lookup_r _ _ _ i y Hys Hi) as (c & _ & Hc).
    apply year_cell_Ok in Hc as [_ [->|[z ->]]]; [done | eauto].
  - intros c Hc. destruct (cols_elem c Hc) as (_ & Hne & Hne').
    rewrite Hsame by done. rewrite lookup_insert_ne by done.
    by apply lookup_foldr_delete_elem.
Qed.

(** X25 on the two-movie table with the ISO date parser. *)
Lemma pipeline_rows_cleaned_witness :
  ∃ out, pipeline iso_year two_movies = Ok out ∧ Forall cleaned (rows out).
Proof.
  assert (∃ out, pipeline iso_year two_movies = Ok out) as [out Hout].
  { eexists. vm_compute. reflexivity. }
  exists out. split; [exact Hout|].
  exact (pipeline_rows_cleaned iso_year two_movies out Hout).
Defined.


(** ** No tag contains the separator *)

Lemma prefix_app_l (p s : string) : String.prefix p (p +:+ s) = true.
Proof.
  induction p as [|a p IH]; [by destruct s|].
  rewrite append_cons. cbn. by destruct (Ascii.ascii_dec a a).
Qed.

Lemma append_eq_nil (a b : string) : a +:+ b = "" → a = "" ∧ b = "".
Proof. destruct a; [done | discriminate]. Qed.

(** A non-empty tail of [cur] followed by [c] is a tail of [cur]
    followed by [c], or [c] alone. *)
Lemma append_snoc_inv (cur a b : string) (c : Ascii.ascii) :
  cur +:+ String c "" = a +:+ b → b ≠ "" →
  ∃ b0, b = b0 +:+ String c "" ∧ cur = a +:+ b0.
Proof.
  revert a. induction cur as [|x cur IH]; intros a H Hb.
  - destruct a as [|y a].
    + change ("" +:+ b) with b in H. exists "". split; [by rewrite <- H | done].
    + rewrite append_cons in H. injection H as -> H.
      symmetry in H. apply append_eq_nil in H as [_ ->]. done.
  - destruct a as [|y a].
    + change ("" +:+ b) with b in H.
      exists (String x cur). split; [by rewrite <- H | done].
    + rewrite !append_cons in H. injection H as -> H.
      destruct (IH a H Hb) as (b0 & -> & ->).
      exists b0. by rewrite append_cons.
Qed.

Lemma split_scan_clean (sep : string) (n : nat) (s cur t : string) :
  sep ≠ "" → String.length s ≤ n →
  (∀ a b, cur = a +:+ b → b ≠ "" → String.prefix sep (b +:+ s) = false) →
  t ∈ split_scan sep 0 cur s → ∀ a b, t ≠ a +:+ sep +:+ b.
Proof.
  intros Hsep. revert s cur. induction n as [|n IH]; intros s cur Hlen Hinv Ht.
  - destruct s; [|cbn in Hlen; lia]. cbn in Ht.
    apply list_elem_of_singleton in Ht as ->. intros a b E.
    assert (String.prefix sep ((sep +:+ b) +:+ "") = false) as Hf.
    { apply (Hinv a); [done|]. destruct sep; [done | discriminate]. }
    by rewrite append_assoc, prefix_app_l in Hf.
  - destruct s as [|c s].
    { cbn in Ht. apply list_elem_of_singleton in Ht as ->. intros a b E.
      assert (String.prefix sep ((sep +:+ b) +:+ "") = false) as Hf.
      { apply (Hinv a); [done|]. destruct sep; [done | discriminate]. }
      by rewrite append_assoc, prefix_app_l in Hf. }
    cbn [split_scan] in Ht.
    destruct (String.prefix sep (String c s)) eqn:Hp.
    + apply elem_of_cons in Ht as [->|Ht].
      * intros a b E.
        assert (String.prefix sep ((sep +:+ b) +:+ String c s) = false) as Hf.
        { apply (Hinv a); [done|]. destruct sep; [done | discriminate]. }
        by rewrite append_assoc, prefix_app_l in Hf.
      * apply prefix_append in Hp as [u Hu].
        destruct sep as [|x sep']; [done|]. rewrite append_cons in Hu.
        injection Hu as -> ->.
        replace (String.length (String x sep') - 1) with (String.length sep')
          in Ht by (cbn; lia).
        rewrite split_scan_skip in Ht.
        apply (IH u ""); [| |done].
        -- cbn in Hlen. rewrite length_append in Hlen. lia.
        -- intros a b E Hb. symmetry in E.
           apply append_eq_nil in E as [_ ->]. done.
    + apply (IH s (cur +:+ String c "")); [cbn in Hlen; lia| |done].
      intros a b E Hb.
      destruct (append_snoc_inv _ _ _ _ E Hb) as (b0 & -> & ->).
      rewrite append_assoc. change (String c "" +:+ s) with (String c s).
      destruct b0 as [|y b0]; [exact Hp|].
      by apply (Hinv a).
Qed.

(** X26: no tag [str.split(', ')] cuts out of a genre string contains
    the separator comma-space. *)
Theorem split_genre_tags_clean (g t : string) :
  t ∈ split ", " g → ∀ a b, t ≠ a +:+ ", " +:+ b.
Proof.
  intros Ht. apply (split_scan_clean ", " (String.length g) g "" t);
    [done | done | | exact Ht].
  intros a b E Hb. symmetry in E. apply append_eq_nil in E as [_ ->]. done.
Qed.

(** X26 on the first tag of a two-genre string: it is not cut in two
    by a separator of its own. *)
Lemma split_genre_tags_clean_witness :
  "Action" ∈ split ", " "Action, Drama" ∧ "Action" ≠ "Act" +:+ ", " +:+ "ion".
Proof.
  split; [apply list_elem_of_here|].
  apply (split_genre_tags_clean "Action, Drama" "Action").
  apply list_elem_of_here.
Defined.
